(** * sshttp: net/http adapters over SSH/SFTP

    A shallow embedding of package [sshttp] (files [sshttp.go],
    [filesystem.go], [roundtripper.go]) and proofs of its contracts:
    the directory pager [File.Readdir], the filesystem adapter
    [FileSystem.Open]/[FileSystem.Close], the session pool behind
    [RoundTripper] and the [get] algorithm with its streaming producer.

    Go values are modelled as follows.
    - [error] interface values: [option error], [None] being [nil].
    - A Go return pair [(v, err)] in which exactly one side is non-nil:
      a sum, [inl e] for [(nil, e)] and [inr v] for [(v, nil)].
    - [int]/[int64]: [Z], with two's-complement wrap-around written out.
    - [map[string]T]: [gmap string T].
    - Remote objects (SSH client, SFTP client, remote file) are records that
      carry, as fields, what the remote side answers to each request.
    - Every call that leaves the process is logged in a trace, threaded
      through a state monad, so that "what was called, in which order" is
      a property of the final trace. *)

From stdpp Require Import gmap strings list fin_maps pretty.
From Stdlib Require Import Ascii OrderedTypeEx Sorted Permutation.

Local Open Scope Z_scope.

(** ** Errors *)

(** [io.EOF], [*sftp.StatusError] with its status code, and every other
    error value (dial failures, I/O failures, ...). *)
Inductive error : Type :=
  | EOF
  | StatusError (Code : Z)
  | OtherError (msg : string).

#[global] Instance error_eq_dec : EqDecision error.
Proof. solve_decision. Defined.

(** Outcome of a call that may also panic. *)
Inductive result (A : Type) : Type :=
  | Ok (a : A)
  | Err (e : error)
  | Panic.
Arguments Ok {A} a.
Arguments Err {A} e.
Arguments Panic {A}.

(** [sftpNoSuchFile] *)
Definition sftpNoSuchFile : Z := 2.

(** [Protocol] *)
Definition Protocol : string := "sftp".

(** ** Machine integers *)

(** Go's [int] on a 64-bit platform: arithmetic wraps modulo 2^64. *)
Definition wrap64 (z : Z) : Z := (z + 2 ^ 63) `mod` 2 ^ 64 - 2 ^ 63.
Definition int_add (a b : Z) : Z := wrap64 (a + b).
Definition int_sub (a b : Z) : Z := wrap64 (a - b).
Definition is_int (z : Z) : Prop := - 2 ^ 63 ≤ z < 2 ^ 63.

(** [len(l)] *)
Definition len {A} (l : list A) : Z := Z.of_nat (length l).

(** [l[lo:]]; [None] is the run-time panic on a bound out of range. *)
Definition slice_from {A} (l : list A) (lo : Z) : option (list A) :=
  if decide (0 ≤ lo ∧ lo ≤ len l) then Some (drop (Z.to_nat lo) l) else None.

(** [l[lo:hi]] *)
Definition slice {A} (l : list A) (lo hi : Z) : option (list A) :=
  if decide (0 ≤ lo ∧ lo ≤ hi ∧ hi ≤ len l)
  then Some (take (Z.to_nat (hi - lo)) (drop (Z.to_nat lo) l))
  else None.

(** ** Remote objects *)

(** [os.FileInfo] as returned by SFTP: base name, size, modification time
    (seconds since the epoch) and the directory bit. *)
Record FileInfo : Type := mkFileInfo {
  Name : string;
  Size : Z;
  ModTime : Z;
  IsDir : bool
}.

#[global] Instance FileInfo_eq_dec : EqDecision FileInfo.
Proof. solve_decision. Defined.

(** [*ssh.ClientConfig]; a nil pointer is [None]. *)
Record ClientConfig : Type := mkClientConfig {
  User : string;
  Auth : list string
}.

(** [*sftp.File]: the remote contents, the read cursor, and the answers of
    the remote side to [Stat], [Seek] and [Close].  [rf_fault = Some (k, e)]
    makes a read that reaches byte [k] fail with [e] after delivering the
    bytes before [k]. *)
Record RemoteFile : Type := mkRemoteFile {
  rf_data : list Byte.byte;
  rf_pos : nat;
  rf_Stat : error + FileInfo;
  rf_fault : option (nat * error);
  rf_Seek : option error;
  rf_Close : option error
}.

(** [*sftp.Client]: what [Open], [ReadDir] and [Close] answer. *)
Record sftpClient : Type := mkSftpClient {
  sftp_id : nat;
  sftp_Open : string → error + RemoteFile;
  sftp_ReadDir : string → error + list FileInfo;
  sftp_Close : option error
}.

(** [*ssh.Client] *)
Record sshClient : Type := mkSshClient {
  ssh_id : nat;
  ssh_Close : option error
}.

(** [clientPair] *)
Record clientPair : Type := mkClientPair {
  sshc : sshClient;
  sftpc : sftpClient
}.

(** ** Trace of external calls *)

Inductive Event : Type :=
  | EvSshDial (host : string) (config : option ClientConfig)
  | EvSftpNewClient (ssh : nat)
  | EvSftpClose (id : nat)
  | EvSshClose (id : nat)
  | EvSftpOpen (id : nat) (path : string)
  | EvSftpReadDir (id : nat) (path : string)
  | EvFileStat
  | EvFileCopyN (n : Z)
  | EvFileSeek (off : Z)
  | EvFileClose
  | EvPipeWrite (bs : list Byte.byte)
  | EvPipeClose (e : option error).

Definition Trace : Type := list Event.

(** State monad over the trace. *)
Definition M (A : Type) : Type := Trace → A * Trace.

Definition ret {A} (a : A) : M A := λ t, (a, t).
Definition bind {A B} (m : M A) (k : A → M B) : M B :=
  λ t, let '(a, t') := m t in k a t'.
Definition emit (e : Event) : M unit := λ t, (tt, t ++ [e]).

Declare Scope go_scope.
Delimit Scope go_scope with go.
Notation "'let*' x ':=' m 'in' k" := (bind m (λ x, k))
  (at level 10, x pattern, m at level 100, k at level 200) : go_scope.
Notation "'do' m 'in' k" := (bind m (λ _, k))
  (at level 10, m at level 100, k at level 200) : go_scope.
Local Open Scope go_scope.

(** Number of dial attempts logged so far. *)
Fixpoint dials (t : Trace) : nat :=
  match t with
  | [] => O
  | EvSshDial _ _ :: t' => S (dials t')
  | _ :: t' => dials t'
  end.

(** ** Library functions used by the package

    Functions of Go's standard library and of the SSH stack that the
    package calls but does not define. *)
Class GoLib : Type := {
  (** [filepath.Dir] *)
  filepath_Dir : string → string;
  (** [filepath.Join] of two elements *)
  filepath_Join : string → string → string;
  (** [filepath.Ext] *)
  filepath_Ext : string → string;
  (** [mime.TypeByExtension]; the empty string when the table has no entry *)
  mime_TypeByExtension : string → string;
  (** [http.DetectContentType] *)
  http_DetectContentType : list Byte.byte → string;
  (** [t.UTC().Format(http.TimeFormat)] *)
  http_TimeFormat : Z → string;
  (** [time.Now()] *)
  time_Now : Z;
  (** [ssh.Dial("tcp", host, config)]; the first argument is the number of
      dials attempted before this one, so that outcomes may vary in time *)
  ssh_Dial : nat → string → option ClientConfig → error + sshClient;
  (** [sftp.NewClient] *)
  sftp_NewClient : sshClient → error + sftpClient
}.

(** ** sshttp.go *)

(** [stickyError] *)
Record stickyError : Type := mkStickyError { err : option error }.

(** [var sErr stickyError] *)
Definition stickyError_zero : stickyError := {| err := None |}.

(** [stickyError.Set] *)
Definition Set_ (e : stickyError) (err' : option error) : stickyError :=
  match err e with
  | Some _ => e
  | None => {| err := err' |}
  end.

(** [stickyError.Get] *)
Definition Get (e : stickyError) : option error := err e.

(** ** filesystem.go: sorting by base name *)

(** [byBaseName.Less] on two entries *)
Definition Less (a b : FileInfo) : bool := String.ltb (Name a) (Name b).

Fixpoint insert_byBaseName (x : FileInfo) (l : list FileInfo) : list FileInfo :=
  match l with
  | [] => [x]
  | y :: l' => if Less x y then x :: y :: l' else y :: insert_byBaseName x l'
  end.

(** [sort.Sort(byBaseName(fis))], as an insertion sort driven by [Less]. *)
Fixpoint sort_byBaseName (l : list FileInfo) : list FileInfo :=
  match l with
  | [] => []
  | x :: l' => insert_byBaseName x (sort_byBaseName l')
  end.

(** ** filesystem.go: File and Readdir *)

(** [File]; the fields are prefixed, [f_File] being the embedded
    [*sftp.File]. *)
Record File : Type := mkFile {
  f_File : RemoteFile;
  f_sftpc : sftpClient;
  f_name : string;
  f_offset : Z;
  f_eofNext : bool
}.

Definition set_eofNext (f : File) (b : bool) : File :=
  {| f_File := f_File f; f_sftpc := f_sftpc f; f_name := f_name f;
     f_offset := f_offset f; f_eofNext := b |}.
Definition set_offset (f : File) (o : Z) : File :=
  {| f_File := f_File f; f_sftpc := f_sftpc f; f_name := f_name f;
     f_offset := o; f_eofNext := f_eofNext f |}.
Definition set_name (f : File) (n : string) : File :=
  {| f_File := f_File f; f_sftpc := f_sftpc f; f_name := n;
     f_offset := f_offset f; f_eofNext := f_eofNext f |}.

(** ** Calls on remote objects *)

(** [sftp.Client.ReadDir] *)
Definition ReadDir (c : sftpClient) (p : string) : M (error + list FileInfo) :=
  do emit (EvSftpReadDir (sftp_id c) p) in ret (sftp_ReadDir c p).

(** [sftp.Client.Open]; the cursor of a freshly opened file is where the
    remote object has it (byte 0 for the files of the examples). *)
Definition sftpOpen (c : sftpClient) (p : string) : M (error + RemoteFile) :=
  do emit (EvSftpOpen (sftp_id c) p) in ret (sftp_Open c p).

(** [sftp.Client.Close] and [ssh.Client.Close] *)
Definition sftpClose (c : sftpClient) : M (option error) :=
  do emit (EvSftpClose (sftp_id c)) in ret (sftp_Close c).
Definition sshClose (c : sshClient) : M (option error) :=
  do emit (EvSshClose (ssh_id c)) in ret (ssh_Close c).

(** [sftp.File.Stat] *)
Definition Stat (f : RemoteFile) : M (error + FileInfo) :=
  do emit EvFileStat in ret (rf_Stat f).

Definition set_pos (f : RemoteFile) (p : nat) : RemoteFile :=
  {| rf_data := rf_data f; rf_pos := p; rf_Stat := rf_Stat f;
     rf_fault := rf_fault f; rf_Seek := rf_Seek f; rf_Close := rf_Close f |}.

(** [f.Seek(0, os.SEEK_SET)] *)
Definition Seek0 (f : RemoteFile) : M (option error * RemoteFile) :=
  do emit (EvFileSeek 0) in
  match rf_Seek f with
  | Some e => ret (Some e, f)
  | None => ret (None, set_pos f O)
  end.

(** [sftp.File.Close] *)
Definition fileClose (f : RemoteFile) : M (option error) :=
  do emit EvFileClose in ret (rf_Close f).

(** Reading at most [n] bytes from the cursor, as [io.Copy] does from
    [io.LimitReader(f, n)]: the bytes delivered, the error that stopped the
    copy ([None] when it stopped at the limit or at end of file) and the
    file with its cursor advanced past the delivered bytes. *)
Definition read_limited (f : RemoteFile) (n : nat)
    : list Byte.byte * option error * RemoteFile :=
  let avail := take n (drop (rf_pos f) (rf_data f)) in
  match rf_fault f with
  | Some (k, e) =>
      if decide (rf_pos f ≤ k ∧ k < rf_pos f + length avail)%nat then
        (take (k - rf_pos f) avail, Some e, set_pos f k)
      else (avail, None, set_pos f (rf_pos f + length avail))
  | None => (avail, None, set_pos f (rf_pos f + length avail))
  end.

(** The outcome of [io.CopyN(dst, f, n)]: the count written, the error,
    the bytes that reached [dst], and the file afterwards.  Go defines it
    as [written, err = Copy(dst, LimitReader(src, n))] followed by
    [if written == n { return n, nil }] and
    [if written < n && err == nil { err = EOF }]: the error is nil exactly
    when [n] bytes were written, and a source that ends early without an
    error of its own yields [io.EOF]. *)
Definition copyN (f : RemoteFile) (n : Z)
    : Z * option error * list Byte.byte * RemoteFile :=
  let '(bs, rerr, f') := read_limited f (Z.to_nat n) in
  let written := len bs in
  if decide (written = n) then (n, None, bs, f')
  else if decide (written < n ∧ rerr = None) then (written, Some EOF, bs, f')
  else (written, rerr, bs, f').

(** [io.CopyN(dst, f, n)] *)
Definition io_CopyN (f : RemoteFile) (n : Z)
    : M (Z * option error * list Byte.byte * RemoteFile) :=
  do emit (EvFileCopyN n) in ret (copyN f n).

(** ** The in-memory pipe *)

(** An [io.Pipe] once the write side is done: the bytes written, and the
    error the producer passed to [CloseWithError] ([None] for nil). *)
Record Pipe : Type := mkPipe {
  pipe_data : list Byte.byte;
  pipe_err : option error
}.

(** The error [Read] returns on the read side after the data: the error
    the write side was closed with, and [io.EOF] when that was nil.  A
    pipe closed with [io.EOF] therefore reads like one closed with nil. *)
Definition read_error (p : Pipe) : error :=
  match pipe_err p with
  | Some e => e
  | None => EOF
  end.

(** [pw.Write] of a block of bytes, with a reader that keeps reading. *)
Definition pipeWrite (bs : list Byte.byte) : M unit := emit (EvPipeWrite bs).

(** [pw.CloseWithError(e)]; it always returns nil. *)
Definition CloseWithError (e : option error) : M (option error) :=
  do emit (EvPipeClose e) in ret None.

(** ** HTTP values *)

(** [http.Header], keys in canonical form. *)
Abbreviation Header := (gmap string (list string)).

Definition Header_Set (h : Header) (k v : string) : Header := <[k := [v]]> h.
Definition Header_Add (h : Header) (k v : string) : Header :=
  <[k := default [] (h !! k) ++ [v]]> h.
Definition Header_Get (h : Header) (k : string) : string :=
  match h !! k with
  | Some (v :: _) => v
  | _ => ""
  end.

(** The part of [*http.Request] the package reads. *)
Record Request : Type := mkRequest {
  Method : string;
  URL_Host : string;
  URL_Path : string
}.

(** The read side of the pipe handed out as response body, together with
    the variables captured by the producer goroutine that feeds it: the
    open file and [stat.Size()]. *)
Record PipeReader : Type := mkPipeReader {
  pr_file : RemoteFile;
  pr_size : Z
}.

(** [*http.Response]; a nil [Body] is [None]. *)
Record Response : Type := mkResponse {
  StatusCode : Z;
  ProtoMajor : Z;
  ProtoMinor : Z;
  Body : option PipeReader;
  Header_ : Header
}.

Definition StatusOK : Z := 200.
Definition StatusNotFound : Z := 404.
Definition StatusMethodNotAllowed : Z := 405.

(** [RoundTripper] *)
Record RoundTripper : Type := mkRoundTripper {
  config : option ClientConfig;
  conn : gmap string clientPair
}.

(** [FileSystem] *)
Record FileSystem : Type := mkFileSystem {
  pair : clientPair;
  path : string
}.

Section Embedding.
Context `{GoLib}.

(** [File.Readdir]: the result and the handle as the call leaves it. *)
Definition Readdir (f : File) (count : Z) : M (result (list FileInfo) * File) :=
  if f_eofNext f then ret (Err EOF, f)
  else
    let* r := ReadDir (f_sftpc f) (filepath_Dir (f_name f)) in
    match r with
    | inl e => ret (Err e, f)
    | inr fis0 =>
        let fis := sort_byBaseName fis0 in
        if decide (count ≤ 0 ∨ len fis ≤ count) then
          ret (Ok fis, set_eofNext f true)
        else if decide (int_sub (len fis) (f_offset f) ≤ count) then
          let f := set_eofNext f true in
          match slice_from fis (f_offset f) with
          | Some out => ret (Ok out, f)
          | None => ret (Panic, f)
          end
        else
          match slice fis (f_offset f) (int_add (f_offset f) count) with
          | Some out => ret (Ok out, set_offset f (int_add (f_offset f) count))
          | None => ret (Panic, f)
          end
    end.

(** Calling [Readdir] with the same [count] until the handle reports
    completion; the pages in the order they were returned.  [None] when a
    call fails or [fuel] calls were not enough. *)
Fixpoint Readdir_pages (fuel : nat) (f : File) (count : Z)
    : M (option (list (list FileInfo)) * File) :=
  match fuel with
  | O => ret (None, f)
  | S fuel' =>
      let* r := Readdir f count in
      match r with
      | (Ok page, f') =>
          if f_eofNext f' then ret (Some [page], f')
          else
            let* r' := Readdir_pages fuel' f' count in
            match r' with
            | (Some pages, f'') => ret (Some (page :: pages), f'')
            | (None, f'') => ret (None, f'')
            end
      | (_, f') => ret (None, f')
      end
  end.

(** ** sshttp.go: dialing *)

(** [ssh.Dial("tcp", host, config)] *)
Definition sshDial (host : string) (cfg : option ClientConfig)
    : M (error + sshClient) :=
  λ t, (ssh_Dial (dials t) host cfg, t ++ [EvSshDial host cfg]).

(** [sftp.NewClient(sshc)] *)
Definition sftpNewClient (c : sshClient) : M (error + sftpClient) :=
  do emit (EvSftpNewClient (ssh_id c)) in ret (sftp_NewClient c).

(** [dialSSHSFTP] *)
Definition dialSSHSFTP (host : string) (cfg : option ClientConfig)
    : M (error + clientPair) :=
  let* r := sshDial host cfg in
  match r with
  | inl e => ret (inl e)
  | inr c =>
      let* r' := sftpNewClient c in
      match r' with
      | inl e => ret (inl e)
      | inr c' => ret (inr {| sshc := c; sftpc := c' |})
      end
  end.

(** ** filesystem.go: FileSystem *)

(** [FileSystem.Open] *)
Definition Open (fs : FileSystem) (name : string) : M (result File) :=
  let fpath := filepath_Join (path fs) name in
  let* o := sftpOpen (sftpc (pair fs)) fpath in
  match o with
  | inl e => ret (Err e)
  | inr f =>
      let file := {| f_File := f; f_sftpc := sftpc (pair fs);
                     f_name := path fs; f_offset := 0; f_eofNext := false |} in
      let* s := Stat f in
      match s with
      | inl e => ret (Err e)
      | inr stat =>
          let file := if IsDir stat then set_name file (fpath +:+ "/") else file in
          ret (Ok file)
      end
  end.

(** [FileSystem.Close] *)
Definition FileSystem_Close (fs : FileSystem) : M (option error) :=
  let sErr := stickyError_zero in
  let* e1 := sftpClose (sftpc (pair fs)) in
  let sErr := Set_ sErr e1 in
  let* e2 := sshClose (sshc (pair fs)) in
  let sErr := Set_ sErr e2 in
  ret (Get sErr).

(** ** roundtripper.go: the session pool *)

(** [NewRoundTripper] *)
Definition NewRoundTripper (cfg : option ClientConfig) : RoundTripper :=
  {| config := cfg; conn := ∅ |}.

(** [RoundTripper.Dial]: the error and the receiver afterwards. *)
Definition Dial (rt : RoundTripper) (host : string) (cfg : option ClientConfig)
    : M (option error * RoundTripper) :=
  let cfg := match cfg with None => config rt | Some _ => cfg end in
  let* r := dialSSHSFTP host cfg in
  match r with
  | inl e => ret (Some e, rt)
  | inr p => ret (None, {| config := config rt; conn := <[host := p]> (conn rt) |})
  end.

(** The body of the [range] loop of [RoundTripper.Close] over the keys
    [ks], in that order.  A key without an entry makes [rt.conn[k]] a nil
    pointer, whose dereference panics. *)
Fixpoint Close_range (ks : list string) (rt : RoundTripper)
    : M (result unit * RoundTripper) :=
  match ks with
  | [] => ret (Ok tt, rt)
  | k :: ks' =>
      match conn rt !! k with
      | None => ret (Panic, rt)
      | Some p =>
          let* e1 := sftpClose (sftpc p) in
          match e1 with
          | Some e => ret (Err e, rt)
          | None =>
              let* e2 := sshClose (sshc p) in
              match e2 with
              | Some e => ret (Err e, rt)
              | None =>
                  Close_range ks'
                    {| config := config rt; conn := delete k (conn rt) |}
              end
          end
      end
  end.

(** [RoundTripper.Close].  Go leaves the iteration order of a map
    unspecified: [order] is the order in which this run of the loop visits
    the keys, a permutation of the keys of [rt.conn]. *)
Definition Close (order : list string) (rt : RoundTripper)
    : M (result unit * RoundTripper) :=
  Close_range order rt.

(** [RoundTripper.lazyDial]: the returned pair of pointer and error, and
    the receiver afterwards. *)
Definition lazyDial (rt : RoundTripper) (host : string)
    : M (option clientPair * option error * RoundTripper) :=
  match conn rt !! host with
  | Some p => ret (Some p, None, rt)
  | None =>
      let* (e, rt') := Dial rt host (config rt) in
      match e with
      | Some e => ret (None, Some e, rt')
      | None => ret (conn rt' !! host, None, rt')
      end
  end.

(** ** roundtripper.go: responses *)

(** [httpResponse] *)
Definition httpResponse (code : Z) (body : option PipeReader) (headers : Header)
    : Response :=
  let h := Header_Set ∅ "Server" "github.com/mdlayher/sshttp" in
  let h := map_fold (λ k v h, foldl (λ h vv, Header_Add h k vv) h v) h headers in
  let h := if decide (Header_Get h "Date" = "")
           then Header_Set h "Date" (http_TimeFormat time_Now) else h in
  let h := if decide (Header_Get h "Content-Type" = "")
           then Header_Set h "Content-Type" "text/plain; charset=utf-8" else h in
  let h := if decide (code ≠ StatusOK ∧ Header_Get h "Connection" = "")
           then Header_Set h "Connection" "close" else h in
  {| StatusCode := code; ProtoMajor := 1; ProtoMinor := 1;
     Body := body; Header_ := h |}.

(** Content-type discovery of [get]: the header set with [Content-Type]
    added and the file as discovery leaves it, or the error that ends
    [get]. *)
Definition discover (h : Header) (stat : FileInfo) (f : RemoteFile)
    : M (result (Header * RemoteFile)) :=
  let cType := mime_TypeByExtension (filepath_Ext (Name stat)) in
  if decide (cType ≠ "") then ret (Ok (Header_Set h "Content-Type" cType, f))
  else
    let* (rn, e, buf, f) := io_CopyN f 512 in
    match e with
    | Some e => ret (Err e)
    | None =>
        match slice buf 0 rn with
        | None => ret Panic
        | Some prefix =>
            let h := Header_Set h "Content-Type" (http_DetectContentType prefix) in
            let* (e', f) := Seek0 f in
            match e' with
            | Some e' => ret (Err e')
            | None => ret (Ok (h, f))
            end
        end
    end.

(** [get]: everything up to the [return]; the goroutine it starts is
    carried by the body of the response and run by [stream]. *)
Definition get (p : clientPair) (r : Request) : M (result Response) :=
  let* o := sftpOpen (sftpc p) (URL_Path r) in
  match o with
  | inl e =>
      match e with
      | StatusError code =>
          if decide (code = sftpNoSuchFile)
          then ret (Ok (httpResponse StatusNotFound None ∅))
          else ret (Err e)
      | _ => ret (Err e)
      end
  | inr f =>
      let* s := Stat f in
      match s with
      | inl e => ret (Err e)
      | inr stat =>
          let h : Header := ∅ in
          let h := Header_Set h "Content-Length" (pretty (Size stat)) in
          let h := Header_Set h "Last-Modified" (http_TimeFormat (ModTime stat)) in
          let* d := discover h stat f in
          match d with
          | Err e => ret (Err e)
          | Panic => ret Panic
          | Ok (h, f) =>
              ret (Ok (httpResponse StatusOK
                         (Some {| pr_file := f; pr_size := Size stat |}) h))
          end
      end
  end.

(** The goroutine started by [get]: what the pipe holds when it is done.
    [Panic] is the [panic(err)] on a failing [CloseWithError]. *)
Definition stream (f : RemoteFile) (size : Z) : M (result Pipe) :=
  let sErr := stickyError_zero in
  let* (_, e, bs, f) := io_CopyN f size in
  do pipeWrite bs in
  let sErr := Set_ sErr e in
  let* e' := fileClose f in
  let sErr := Set_ sErr e' in
  let* e'' := CloseWithError (Get sErr) in
  match e'' with
  | Some _ => ret Panic
  | None => ret (Ok {| pipe_data := bs; pipe_err := Get sErr |})
  end.

(** Reading a response body to its end. *)
Definition ReadAll (b : PipeReader) : M (result Pipe) :=
  stream (pr_file b) (pr_size b).

(** [RoundTripper.RoundTrip] *)
Definition RoundTrip (rt : RoundTripper) (r : Request)
    : M (result Response * RoundTripper) :=
  let* (p, e, rt) := lazyDial rt (URL_Host r) in
  match e with
  | Some e => ret (Err e, rt)
  | None =>
      if decide (Method r = "GET") then
        match p with
        | Some p => let* res := get p r in ret (res, rt)
        | None => ret (Panic, rt)
        end
      else ret (Ok (httpResponse StatusMethodNotAllowed None ∅), rt)
  end.

End Embedding.

(** * A concrete environment

    One remote machine used to run the embedding on concrete inputs.
    Its library functions are given on the paths and contents that occur
    below; all times are the epoch. *)

Module Example.

Definition fi (name : string) (size : Z) (dir : bool) : FileInfo :=
  {| Name := name; Size := size; ModTime := 0; IsDir := dir |}.

(** Directory listings of the remote machine, in the order the server
    sends them. *)
Definition home : list FileInfo := [fi "user" 0 true; fi "lost+found" 0 true].
Definition home_user : list FileInfo :=
  [fi "b" 600 false; fi "hello.txt" 3 false; fi "a" 3 false; fi "docs" 0 true].
Definition home_user_docs : list FileInfo := [fi "notes.txt" 3 false].

Definition bytes_of (s : string) : list Byte.byte := String.list_byte_of_string s.

(** The three bytes [hi\n]. *)
Definition hi : list Byte.byte := [Byte.x68; Byte.x69; Byte.x0a].

Definition regular (name : string) (data : list Byte.byte) : RemoteFile :=
  {| rf_data := data; rf_pos := 0;
     rf_Stat := inr (fi name (len data) false);
     rf_fault := None; rf_Seek := None; rf_Close := None |}.

Definition directory (name : string) : RemoteFile :=
  {| rf_data := []; rf_pos := 0; rf_Stat := inr (fi name 0 true);
     rf_fault := None; rf_Seek := None; rf_Close := None |}.

Definition remote_Open (p : string) : error + RemoteFile :=
  if decide (p = "/home/user/hello.txt") then inr (regular "hello.txt" hi)
  else if decide (p = "/home/user/a") then inr (regular "a" (bytes_of "abc"))
  else if decide (p = "/home/user/b") then inr (regular "b" (replicate 600 Byte.x78))
  else if decide (p = "/home/user/docs/notes.txt") then inr (regular "notes.txt" (bytes_of "two"))
  else if decide (p = "/home/user") then inr (directory "user")
  else if decide (p = "/home/user/docs") then inr (directory "docs")
  else if decide (p = "/root/secret") then inl (StatusError 3)
  else if decide (p = "/dev/broken") then inl (OtherError "connection lost")
  else inl (StatusError 2).

Definition remote_ReadDir (p : string) : error + list FileInfo :=
  if decide (p = "/home") then inr home
  else if decide (p = "/home/user") then inr home_user
  else if decide (p = "/home/user/docs") then inr home_user_docs
  else inl (StatusError 2).

Definition sftp_of (c : sshClient) : sftpClient :=
  {| sftp_id := S (ssh_id c); sftp_Open := remote_Open;
     sftp_ReadDir := remote_ReadDir; sftp_Close := None |}.

(** [filepath.Ext], by Go's definition: the suffix from the last dot of
    the last path element. *)
Fixpoint Ext_from (s : string) (cur : string) : string :=
  match s with
  | EmptyString => cur
  | String c s' =>
      if decide (c = "/"%char) then Ext_from s' ""
      else if decide (c = "."%char) then Ext_from s' s
      else Ext_from s' cur
  end.

Definition lib : GoLib := {|
  filepath_Dir p :=
    if decide (p = "/home/user") then "/home"
    else if decide (p = "/home/user/") then "/home/user"
    else if decide (p = "/home/user/docs/") then "/home/user/docs"
    else if decide (p = "/home/user/docs/notes.txt") then "/home/user/docs"
    else "/";
  filepath_Join a b :=
    if decide (b = "/") then a else a +:+ b;
  filepath_Ext p := Ext_from p "";
  mime_TypeByExtension e :=
    if decide (e = ".txt") then "text/plain; charset=utf-8" else "";
  http_DetectContentType _ := "text/plain; charset=utf-8";
  http_TimeFormat _ := "Thu, 01 Jan 1970 00:00:00 GMT";
  time_Now := 0;
  ssh_Dial n host _ :=
    if decide (host = "down:22") then inl (OtherError "connection refused")
    else inr {| ssh_id := 2 * n; ssh_Close := None |};
  sftp_NewClient c := inr (sftp_of c)
|}.

Definition ssh0 : sshClient := {| ssh_id := 0; ssh_Close := None |}.
Definition pair0 : clientPair := {| sshc := ssh0; sftpc := sftp_of ssh0 |}.

(** The filesystem adapter rooted at [/home/user]. *)
Definition fs : FileSystem := {| pair := pair0; path := "/home/user" |}.

(** The handle [fs.Open("/")] returns: the root directory itself. *)
Definition root_handle : File :=
  {| f_File := directory "user"; f_sftpc := sftp_of ssh0;
     f_name := "/home/user/"; f_offset := 0; f_eofNext := false |}.

(** [root_handle] after one page of one entry. *)
Definition page1_handle : File := set_offset root_handle 1.

Definition cfg : ClientConfig := {| User := "user"; Auth := ["password"] |}.

(** A pool that has not dialed yet. *)
Definition rt_empty : RoundTripper := NewRoundTripper (Some cfg).

(** A pair whose sub-session fails to close, and a healthy one. *)
Definition ssh7 : sshClient := {| ssh_id := 7; ssh_Close := None |}.
Definition pair_stuck : clientPair :=
  {| sshc := ssh7;
     sftpc := {| sftp_id := 8; sftp_Open := remote_Open;
                 sftp_ReadDir := remote_ReadDir;
                 sftp_Close := Some (OtherError "close failed") |} |}.

(** A pool with two hosts. *)
Definition rt_two : RoundTripper :=
  {| config := Some cfg;
     conn := <["h1:22" := pair_stuck]> (<["h2:22" := pair0]> ∅) |}.

Definition GET (host path : string) : Request :=
  {| Method := "GET"; URL_Host := host; URL_Path := path |}.
Definition POST (host path : string) : Request :=
  {| Method := "POST"; URL_Host := host; URL_Path := path |}.

End Example.

(** * Paths on Unix

    [filepath.Clean], [filepath.Dir] and [filepath.Join] for
    slash-separated paths, by the rules Go documents: [Clean] drops empty
    and [.] elements, lets [..] cancel the element before it (and vanish
    at the root), and returns [.] for an empty result; [Dir] cleans the
    path up to its last separator; [Join] joins from the first non-empty
    element on and cleans the result. *)

Module Unix.

(** The elements of a path: the substrings between its separators. *)
Fixpoint elements (s : string) : list string :=
  match s with
  | EmptyString => [EmptyString]
  | String c s' =>
      if decide (c = "/"%char) then EmptyString :: elements s'
      else match elements s' with
           | e :: es => String c e :: es
           | [] => [String c EmptyString]
           end
  end.

Definition rooted (s : string) : bool :=
  match s with
  | String c _ => bool_decide (c = "/"%char)
  | EmptyString => false
  end.

(** The elements [Clean] keeps, [stack] holding those kept so far, last
    first. *)
Fixpoint clean_elements (root : bool) (es stack : list string) : list string :=
  match es with
  | [] => reverse stack
  | e :: es' =>
      if decide (e = "" ∨ e = ".") then clean_elements root es' stack
      else if decide (e = "..") then
        match stack with
        | top :: rest =>
            if decide (top = "..") then clean_elements root es' (".." :: stack)
            else clean_elements root es' rest
        | [] =>
            if root then clean_elements root es' []
            else clean_elements root es' [".."]
        end
      else clean_elements root es' (e :: stack)
  end.

(** [filepath.Clean] *)
Definition Clean (s : string) : string :=
  let kept := clean_elements (rooted s) (elements s) [] in
  if rooted s then "/" +:+ String.concat "/" kept
  else match kept with
       | [] => "."
       | _ => String.concat "/" kept
       end.

(** [path[:i+1]] for the index [i] of the last separator; empty when the
    path has none. *)
Fixpoint upto_last_slash (s : string) : string :=
  match s with
  | EmptyString => ""
  | String c s' =>
      match upto_last_slash s' with
      | EmptyString => if decide (c = "/"%char) then "/" else ""
      | r => String c r
      end
  end.

(** [filepath.Dir] *)
Definition Dir (s : string) : string := Clean (upto_last_slash s).

(** [filepath.Join] of two elements *)
Definition Join (a b : string) : string :=
  if decide (a ≠ "") then Clean (a +:+ "/" +:+ b)
  else if decide (b ≠ "") then Clean b
  else "".

(** The concrete environment with these path functions. *)
Definition lib : GoLib := {|
  filepath_Dir := Dir;
  filepath_Join := Join;
  filepath_Ext := @filepath_Ext Example.lib;
  mime_TypeByExtension := @mime_TypeByExtension Example.lib;
  http_DetectContentType := @http_DetectContentType Example.lib;
  http_TimeFormat := @http_TimeFormat Example.lib;
  time_Now := @time_Now Example.lib;
  ssh_Dial := @ssh_Dial Example.lib;
  sftp_NewClient := @sftp_NewClient Example.lib
|}.

(** The filesystem adapter of [sftp://host/home/user/]: the same root
    directory as [Example.fs], written with a trailing separator. *)
Definition fs_slash : FileSystem :=
  {| pair := Example.pair0; path := "/home/user/" |}.

End Unix.

(** * Properties *)

(** Running the monad: unfold the calls on remote objects and the monad
    operations, leaving the function under study as it is. *)
Ltac run :=
  cbv [bind ret emit ReadDir sftpOpen sftpClose sshClose Stat fileClose
       pipeWrite CloseWithError io_CopyN Seek0];
  cbn beta iota zeta.

(** ** Machine integers and slices *)

Lemma wrap64_small z : is_int z → wrap64 z = z.
Proof.
  unfold is_int, wrap64. intros Hz.
  rewrite Z.mod_small; lia.
Qed.

Lemma slice_from_in_range {A} (l : list A) (lo : Z) :
  0 ≤ lo ≤ len l → slice_from l lo = Some (drop (Z.to_nat lo) l).
Proof. intros Hlo. unfold slice_from. case_decide; [done | lia]. Qed.

Lemma slice_in_range {A} (l : list A) (lo hi : Z) :
  0 ≤ lo → lo ≤ hi → hi ≤ len l →
  slice l lo hi = Some (take (Z.to_nat (hi - lo)) (drop (Z.to_nat lo) l)).
Proof. intros. unfold slice. case_decide; [done | lia]. Qed.

(** ** Order on base names *)

Definition name_lt (a b : FileInfo) : Prop := Less a b = true.
Definition name_le (a b : FileInfo) : Prop := Less b a = false.

Lemma ltb_lts (s1 s2 : string) :
  String.ltb s1 s2 = true ↔ String_as_OT.lt s1 s2.
Proof.
  rewrite <- String_as_OT.cmp_lt. unfold String.ltb, String_as_OT.cmp.
  destruct (String.compare s1 s2); split; congruence.
Qed.

Lemma ltb_irrefl (s : string) : String.ltb s s = false.
Proof.
  destruct (String.ltb s s) eqn:E; [| done].
  apply ltb_lts in E. by apply String_as_OT.lt_not_eq in E.
Qed.

Lemma ltb_trans (s1 s2 s3 : string) :
  String.ltb s1 s2 = true → String.ltb s2 s3 = true → String.ltb s1 s3 = true.
Proof.
  rewrite !ltb_lts. apply String_as_OT.lt_trans.
Qed.

Lemma ltb_trichotomy (s1 s2 : string) :
  String.ltb s1 s2 = true ∨ s1 = s2 ∨ String.ltb s2 s1 = true.
Proof.
  unfold String.ltb. rewrite (String.compare_antisym s2 s1).
  destruct (String.compare s1 s2) eqn:E; simpl; auto.
  right; left. by apply String.compare_eq_iff.
Qed.

Lemma name_lt_le a b : name_lt a b → name_le a b.
Proof.
  unfold name_lt, name_le, Less. intros Hab.
  destruct (String.ltb (Name b) (Name a)) eqn:E; [| done].
  pose proof (ltb_trans _ _ _ Hab E) as Hc. by rewrite ltb_irrefl in Hc.
Qed.

Lemma name_le_trans a b c : name_le a b → name_le b c → name_le a c.
Proof.
  unfold name_le, Less. intros Hab Hbc.
  destruct (String.ltb (Name c) (Name a)) eqn:E; [| done].
  destruct (ltb_trichotomy (Name a) (Name b)) as [H1 | [H1 | H1]].
  - pose proof (ltb_trans _ _ _ E H1). congruence.
  - rewrite H1 in E. congruence.
  - congruence.
Qed.

Lemma name_le_lt a b : name_le a b → Name a ≠ Name b → name_lt a b.
Proof.
  unfold name_le, name_lt, Less. intros Hle Hne.
  destruct (ltb_trichotomy (Name a) (Name b)) as [H1 | [H1 | H1]];
    [done | done | congruence].
Qed.

Lemma name_lt_trans a b c : name_lt a b → name_lt b c → name_lt a c.
Proof. unfold name_lt, Less. apply ltb_trans. Qed.

Lemma name_lt_irrefl a : ¬ name_lt a a.
Proof. unfold name_lt, Less. by rewrite ltb_irrefl. Qed.

(** ** The sort *)

Lemma insert_byBaseName_perm x l : insert_byBaseName x l ≡ₚ x :: l.
Proof.
  induction l as [| y l IH]; simpl; [done |].
  destruct (Less x y); [done |].
  rewrite IH. apply Permutation_swap.
Qed.

Lemma sort_byBaseName_perm l : sort_byBaseName l ≡ₚ l.
Proof.
  induction l as [| x l IH]; simpl; [done |].
  by rewrite insert_byBaseName_perm, IH.
Qed.

Lemma sort_byBaseName_length l : length (sort_byBaseName l) = length l.
Proof. apply Permutation_length, sort_byBaseName_perm. Qed.

Lemma insert_byBaseName_sorted x l :
  StronglySorted name_le l → StronglySorted name_le (insert_byBaseName x l).
Proof.
  induction 1 as [| y l Hs IH Hall]; simpl.
  - repeat constructor.
  - destruct (Less x y) eqn:E.
    + constructor; [by constructor |].
      constructor; [by apply name_lt_le |].
      eapply Forall_impl; [exact Hall |].
      intros z Hz. eapply name_le_trans; [| exact Hz]. by apply name_lt_le.
    + constructor; [done |].
      rewrite insert_byBaseName_perm. by constructor.
Qed.

Lemma sort_byBaseName_sorted l : StronglySorted name_le (sort_byBaseName l).
Proof.
  induction l as [| x l IH]; simpl; [constructor |].
  by apply insert_byBaseName_sorted.
Qed.

Lemma sorted_le_lt l :
  NoDup (Name <$> l) → StronglySorted name_le l → StronglySorted name_lt l.
Proof.
  induction l as [| x l IH]; intros Hnd Hs; [constructor |].
  rewrite fmap_cons in Hnd. apply NoDup_cons in Hnd as [Hx Hnd].
  apply StronglySorted_inv in Hs as [Hs Hall].
  constructor; [by apply IH |].
  rewrite Forall_forall in Hall |- *. intros y Hy.
  apply name_le_lt; [by apply Hall |].
  intros Heq. apply Hx. rewrite Heq.
  apply list_elem_of_fmap. by exists y.
Qed.

(** With unique names the sorted listing is strictly ascending. *)
Lemma sort_byBaseName_strict l :
  NoDup (Name <$> l) → StronglySorted name_lt (sort_byBaseName l).
Proof.
  intros Hnd. apply sorted_le_lt; [| apply sort_byBaseName_sorted].
  by rewrite (sort_byBaseName_perm l).
Qed.

(** A strictly ascending arrangement of a listing is unique, so the
    outcome of the sort does not depend on the sorting algorithm. *)
Lemma strictly_sorted_unique l1 l2 :
  StronglySorted name_lt l1 → StronglySorted name_lt l2 → l1 ≡ₚ l2 → l1 = l2.
Proof.
  revert l2. induction l1 as [| x l1 IH]; intros l2 H1 H2 Hp.
  - by apply Permutation_nil in Hp.
  - destruct l2 as [| y l2]; [by apply Permutation_sym, Permutation_nil in Hp |].
    apply StronglySorted_inv in H1 as [H1 Hx].
    apply StronglySorted_inv in H2 as [H2 Hy].
    rewrite Forall_forall in Hx, Hy.
    assert (x = y) as ->.
    { assert (x ∈ y :: l2) as Hin by (rewrite <- Hp; left).
      assert (y ∈ x :: l1) as Hin' by (rewrite Hp; left).
      apply elem_of_cons in Hin as [-> | Hin]; [done |].
      apply elem_of_cons in Hin' as [-> | Hin']; [done |].
      exfalso. apply (name_lt_irrefl x).
      eapply name_lt_trans; [by apply Hx | by apply Hy]. }
    f_equal. apply IH; [done | done |]. by apply Permutation_cons_inv in Hp.
Qed.

(** Whatever algorithm [sort.Sort] runs, on uniquely named entries it can
    only produce the list [sort_byBaseName] computes. *)
Lemma sort_byBaseName_unique l l' :
  NoDup (Name <$> l) → l' ≡ₚ l → StronglySorted name_lt l' →
  l' = sort_byBaseName l.
Proof.
  intros Hnd Hp Hs. apply strictly_sorted_unique; [done | |].
  - by apply sort_byBaseName_strict.
  - by rewrite Hp, sort_byBaseName_perm.
Qed.

(** ** The directory pager *)

Section Pager.
Context `{GoLib}.

Variables (fis0 : list FileInfo) (count : Z).

(** The handle reads a fixed listing and has not signalled completion. *)
Definition lists (f : File) : Prop :=
  f_eofNext f = false ∧
  sftp_ReadDir (f_sftpc f) (filepath_Dir (f_name f)) = inr fis0.

Definition readdir_event (f : File) : Event :=
  EvSftpReadDir (sftp_id (f_sftpc f)) (filepath_Dir (f_name f)).

Lemma Readdir_done f t :
  f_eofNext f = true → Readdir f count t = (Err EOF, f, t).
Proof. intros Hf. unfold Readdir. by rewrite Hf. Qed.

Lemma Readdir_all f t :
  lists f → count ≤ 0 ∨ len fis0 ≤ count →
  Readdir f count t =
    (Ok (sort_byBaseName fis0), set_eofNext f true, t ++ [readdir_event f]).
Proof.
  intros [Hf Hl] Hc. unfold Readdir, ReadDir, bind, emit, ret.
  rewrite Hf, Hl. unfold len. rewrite sort_byBaseName_length.
  by case_decide.
Qed.

Lemma Readdir_rest f t :
  lists f → is_int (len fis0) →
  0 < count < len fis0 → 0 ≤ f_offset f ≤ len fis0 →
  len fis0 - f_offset f ≤ count →
  Readdir f count t =
    (Ok (drop (Z.to_nat (f_offset f)) (sort_byBaseName fis0)),
     set_eofNext f true, t ++ [readdir_event f]).
Proof.
  intros [Hf Hl] Hn Hc Ho Hrest. unfold Readdir, ReadDir, bind, emit, ret.
  rewrite Hf, Hl. unfold len in *. rewrite sort_byBaseName_length.
  case_decide; [lia |].
  unfold int_sub. rewrite wrap64_small by (unfold is_int in *; lia).
  case_decide; [| lia]. simpl.
  rewrite slice_from_in_range; [done |].
  unfold len. rewrite sort_byBaseName_length. lia.
Qed.

Lemma Readdir_page f t :
  lists f → is_int (len fis0) →
  0 < count → 0 ≤ f_offset f → count < len fis0 - f_offset f →
  Readdir f count t =
    (Ok (take (Z.to_nat count)
           (drop (Z.to_nat (f_offset f)) (sort_byBaseName fis0))),
     set_offset f (f_offset f + count), t ++ [readdir_event f]).
Proof.
  intros [Hf Hl] Hn Hc Ho Hrest. unfold Readdir, ReadDir, bind, emit, ret.
  rewrite Hf, Hl. unfold len in *. rewrite sort_byBaseName_length.
  case_decide; [lia |].
  unfold int_sub, int_add.
  rewrite !wrap64_small by (unfold is_int in *; lia).
  case_decide; [lia |].
  rewrite slice_in_range; try lia.
  - do 4 f_equal. lia.
  - unfold len. rewrite sort_byBaseName_length. lia.
Qed.

(** Paging from any offset reached with page size [count]: the remaining
    calls return, page by page, exactly the entries from the offset on. *)
Lemma Readdir_pages_from fuel : ∀ f t,
  lists f → is_int (len fis0) → 0 < count →
  0 ≤ f_offset f →
  f_offset f = 0 ∨ (count < len fis0 ∧ f_offset f < len fis0) →
  (Z.to_nat (len fis0 - f_offset f) < fuel)%nat →
  ∃ pages f' t',
    Readdir_pages fuel f count t = (Some pages, f', t') ∧
    concat pages = drop (Z.to_nat (f_offset f)) (sort_byBaseName fis0) ∧
    Forall (λ p, len p ≤ count) pages ∧
    f_eofNext f' = true.
Proof.
  induction fuel as [| fuel IH]; intros f t Hl Hn Hc Ho Hinv Hfuel; [lia |].
  simpl. unfold bind at 1.
  destruct (decide (len fis0 ≤ count)) as [Hsmall | Hbig].
  - assert (f_offset f = 0) as Ho0 by lia.
    rewrite Readdir_all by auto. simpl.
    eexists _, _, _. split; [reflexivity |].
    rewrite Ho0. simpl. rewrite app_nil_r. split_and!; [done | | done].
    constructor; [| done]. unfold len in *. rewrite sort_byBaseName_length. lia.
  - destruct (decide (len fis0 - f_offset f ≤ count)) as [Hrest | Hmore].
    + rewrite Readdir_rest by (auto; lia). simpl.
      eexists _, _, _. split; [reflexivity |].
      simpl. rewrite app_nil_r. split_and!; [done | | done].
      constructor; [| done]. unfold len in *.
      rewrite length_drop, sort_byBaseName_length. lia.
    + rewrite Readdir_page by (auto; lia).
      destruct Hl as [Hf Hl]. cbn [f_eofNext set_offset]. rewrite Hf.
      unfold bind.
      destruct (IH (set_offset f (f_offset f + count))
                  (t ++ [readdir_event f]))
        as (pages & f' & t' & Hr & Hcat & Hlen & Hdone);
        try (cbn [f_offset set_offset]; lia); [by split | done |].
      rewrite Hr. eexists _, _, _. split; [reflexivity |].
      split_and!; [| | done].
      * simpl. rewrite Hcat. cbn [f_offset set_offset].
        replace (Z.to_nat (f_offset f + count))
          with (Z.to_nat (f_offset f) + Z.to_nat count)%nat by lia.
        rewrite <- drop_drop. apply take_drop.
      * constructor; [| done]. unfold len. rewrite length_take. lia.
Qed.

End Pager.

Section PagerContract.
Context `{GoLib}.

(** C1 (as amended).  A handle over a fixed listing [fis0] of uniquely
    named entries that has not signalled completion:
    - paged with one page size [count > 0] from offset 0, the calls up to
      completion return every entry exactly once, in strictly ascending
      base-name order, no page longer than [count]; the last call sets
      [eofNext], and the call after it fails with [io.EOF];
    - called with [count <= 0], it returns the entire sorted listing, from
      its start whatever the offset, and sets [eofNext];
    - called at offset 0 with a listing of no more than [count] entries, it
      returns the entries from the offset on, which are the entire sorted
      listing, and sets [eofNext]. *)
Theorem Readdir_contract (f : File) (fis0 : list FileInfo) :
  f_eofNext f = false →
  sftp_ReadDir (f_sftpc f) (filepath_Dir (f_name f)) = inr fis0 →
  NoDup (Name <$> fis0) →
  is_int (len fis0) →
  (∀ count t, f_offset f = 0 → 0 < count →
     ∃ pages f' t',
       Readdir_pages (S (length fis0)) f count t = (Some pages, f', t') ∧
       concat pages = sort_byBaseName fis0 ∧
       concat pages ≡ₚ fis0 ∧
       StronglySorted name_lt (concat pages) ∧
       Forall (λ p, len p ≤ count) pages ∧
       f_eofNext f' = true ∧
       ∀ t'', Readdir f' count t'' = (Err EOF, f', t'')) ∧
  (∀ count t, count ≤ 0 →
     Readdir f count t =
       (Ok (sort_byBaseName fis0), set_eofNext f true,
        t ++ [readdir_event f])) ∧
  (∀ count t, f_offset f = 0 → len fis0 ≤ count →
     slice_from (sort_byBaseName fis0) (f_offset f) = Some (sort_byBaseName fis0) ∧
     Readdir f count t =
       (Ok (sort_byBaseName fis0), set_eofNext f true,
        t ++ [readdir_event f])).
Proof.
  intros Hf Hl Hnd Hn. split_and!.
  - intros count t Ho Hc.
    assert (lists fis0 f) as Hlists by (by split).
    assert (Z.to_nat (len fis0 - f_offset f) < S (length fis0))%nat as Hfuel
      by (unfold len; lia).
    destruct (Readdir_pages_from fis0 count (S (length fis0)) f t
                Hlists Hn Hc ltac:(lia) (or_introl Ho) Hfuel)
      as (pages & f' & t' & Hr & Hcat & Hlen & Hdone).
    rewrite Ho in Hcat. simpl in Hcat.
    exists pages, f', t'. split_and!; try done.
    + rewrite Hcat. apply sort_byBaseName_perm.
    + rewrite Hcat. by apply sort_byBaseName_strict.
    + intros t''. by apply Readdir_done.
  - intros count t Hc. apply Readdir_all; [done | by left].
  - intros count t Ho Hc. split; [| apply Readdir_all; [done | by right]].
    rewrite Ho. rewrite slice_from_in_range; [done |]. unfold len. lia.
Qed.

End PagerContract.

(** ** Closing sessions *)

(** The error of closing one pair: sub-session first, then the transport
    connection, the first failure winning. *)
Definition close_pair_error (p : clientPair) : option error :=
  match sftp_Close (sftpc p) with
  | Some e => Some e
  | None => ssh_Close (sshc p)
  end.

(** The two close calls on a pair, in source order. *)
Definition close_events (p : clientPair) : Trace :=
  [EvSftpClose (sftp_id (sftpc p)); EvSshClose (ssh_id (sshc p))].

(** The close calls made on a pair whose closing fails: the sub-session
    close, and the connection close only when the former succeeded. *)
Definition failing_close_events (p : clientPair) : Trace :=
  match sftp_Close (sftpc p) with
  | Some _ => [EvSftpClose (sftp_id (sftpc p))]
  | None => close_events p
  end.

Lemma Set_first (e1 e2 : option error) :
  Get (Set_ (Set_ stickyError_zero e1) e2) =
    match e1 with Some _ => e1 | None => e2 end.
Proof. by destruct e1. Qed.

(** C6.  [FileSystem.Close] calls [Close] on the SFTP sub-session and
    then on the SSH connection, whatever the first call returns, and
    returns the first non-nil error of the two; a later error is dropped. *)
Theorem FileSystem_Close_sticky (fs : FileSystem) (t : Trace) :
  FileSystem_Close fs t =
    (match sftp_Close (sftpc (pair fs)) with
     | Some e => Some e
     | None => ssh_Close (sshc (pair fs))
     end,
     t ++ [EvSftpClose (sftp_id (sftpc (pair fs)));
           EvSshClose (ssh_id (sshc (pair fs)))]).
Proof.
  unfold FileSystem_Close. run.
  rewrite Set_first, <- app_assoc. simpl.
  by destruct (sftp_Close (sftpc (pair fs))).
Qed.

Lemma lookup_foldl_delete {V} (ks : list string) : ∀ (m : gmap string V) k,
  foldl (λ m k, delete k m) m ks !! k =
    if decide (k ∈ ks) then None else m !! k.
Proof.
  induction ks as [| k0 ks IH]; intros m k.
  - rewrite decide_False; [done | apply not_elem_of_nil].
  - cbn [foldl]. rewrite IH.
    destruct (decide (k ∈ ks)) as [Hin | Hin].
    + rewrite decide_True; [done | by right].
    + destruct (decide (k = k0)) as [-> | Hne].
      * rewrite lookup_delete_eq. rewrite decide_True; [done | by left].
      * rewrite lookup_delete_ne by done.
        rewrite decide_False; [done |].
        by intros [? | ?]%elem_of_cons.
Qed.

(** The pool after the entries of [ks] were removed one by one. *)
Definition without (ks : list string) (rt : RoundTripper) : RoundTripper :=
  {| config := config rt; conn := foldl (λ m k, delete k m) (conn rt) ks |}.

(** A run of the loop over entries that all close without error removes
    them and goes on with the rest. *)
Lemma Close_range_closed (done_ : list (string * clientPair)) :
  ∀ (rest : list string) (rt : RoundTripper) (t : Trace),
  NoDup done_.*1 →
  (∀ k p, (k, p) ∈ done_ → conn rt !! k = Some p ∧ close_pair_error p = None) →
  Close_range (done_.*1 ++ rest) rt t =
    Close_range rest (without done_.*1 rt)
      (t ++ concat (close_events <$> done_.*2)).
Proof.
  induction done_ as [| [k p] done_ IH]; intros rest rt t Hnd Hok.
  - simpl. rewrite app_nil_r. by destruct rt.
  - rewrite !fmap_cons in *. simpl in *.
    apply NoDup_cons in Hnd as [Hk Hnd].
    destruct (Hok k p) as [Hp Hcl]; [left |].
    rewrite Hp. unfold close_pair_error in Hcl. run.
    destruct (sftp_Close (sftpc p)); [done |]. rewrite Hcl.
    rewrite IH; [| done |].
    + f_equal. rewrite <- !app_assoc. done.
    + intros k' p' Hin. simpl.
      destruct (Hok k' p') as [Hp' Hcl']; [by right |].
      split; [| done]. rewrite lookup_delete_ne; [done |].
      intros ->. apply Hk. apply list_elem_of_fmap. by exists (k', p').
Qed.

(** C5.  [RoundTripper.Close], run over the keys in any order: the pairs
    visited before the first failure had their sub-session and then
    their connection closed and were removed; on the first pair whose
    closing fails the loop returns that error at once, and that pair and
    every pair not yet visited are still in the pool. *)
Theorem Close_stops_at_first_error
    (rt : RoundTripper) (done_ : list (string * clientPair))
    (k : string) (p : clientPair) (e : error) (rest : list string) (t : Trace) :
  NoDup (done_.*1 ++ k :: rest) →
  (∀ k' p', (k', p') ∈ done_ →
     conn rt !! k' = Some p' ∧ close_pair_error p' = None) →
  conn rt !! k = Some p →
  close_pair_error p = Some e →
  ∃ rt',
    Close (done_.*1 ++ k :: rest) rt t =
      (Err e, rt',
       t ++ concat (close_events <$> done_.*2) ++ failing_close_events p) ∧
    config rt' = config rt ∧
    (∀ k', k' ∈ done_.*1 → conn rt' !! k' = None) ∧
    conn rt' !! k = Some p ∧
    (∀ k', k' ∈ rest → conn rt' !! k' = conn rt !! k').
Proof.
  intros Hnd Hok Hp He.
  apply NoDup_app in Hnd as (Hnd & Hdisj & _).
  exists (without done_.*1 rt). unfold Close.
  rewrite Close_range_closed by done.
  assert (∀ k', k' ∉ done_.*1 → conn (without done_.*1 rt) !! k' = conn rt !! k')
    as Hkeep.
  { intros k' Hk'. simpl. rewrite lookup_foldl_delete. by case_decide. }
  assert (k ∉ done_.*1) as Hk by (intros Hin; apply (Hdisj k Hin); left).
  split_and!.
  - simpl. rewrite Hkeep, Hp by done.
    unfold close_pair_error in He. unfold failing_close_events, close_events.
    run. destruct (sftp_Close (sftpc p)) as [e1 |].
    + injection He as ->. by rewrite <- app_assoc.
    + rewrite He. by rewrite <- !app_assoc.
  - done.
  - intros k' Hk'. simpl. rewrite lookup_foldl_delete. by case_decide.
  - by rewrite Hkeep.
  - intros k' Hk'. apply Hkeep. intros Hin. apply (Hdisj k' Hin). by right.
Qed.

(** When no pair fails to close, the loop visits every key and empties
    the pool. *)
Lemma Close_all_closed (rt : RoundTripper) (all : list (string * clientPair)) t :
  NoDup all.*1 →
  (∀ k p, (k, p) ∈ all ↔ conn rt !! k = Some p) →
  (∀ k p, (k, p) ∈ all → close_pair_error p = None) →
  Close all.*1 rt t =
    (Ok tt, {| config := config rt; conn := ∅ |},
     t ++ concat (close_events <$> all.*2)).
Proof.
  intros Hnd Hall Hok. unfold Close.
  rewrite <- (app_nil_r all.*1) at 1.
  rewrite Close_range_closed; [| done |].
  - simpl. unfold without. do 3 f_equal. apply map_eq. intros k.
    rewrite lookup_foldl_delete, lookup_empty. case_decide as Hin; [done |].
    destruct (conn rt !! k) as [p |] eqn:E; [| done].
    exfalso. apply Hin. apply list_elem_of_fmap. exists (k, p).
    split; [done |]. by apply Hall.
  - intros k p Hin. split; [by apply Hall | by eapply Hok].
Qed.

(** ** The session pool *)

Lemma dials_app (t1 t2 : Trace) : dials (t1 ++ t2) = (dials t1 + dials t2)%nat.
Proof.
  induction t1 as [| e t1 IH]; [done |].
  destruct e; simpl; rewrite IH; lia.
Qed.

Section Pool.
Context `{GoLib}.

(** What [dialSSHSFTP] returns at a given trace. *)
Definition dial_outcome (host : string) (cfg : option ClientConfig) (t : Trace)
    : error + clientPair :=
  match ssh_Dial (dials t) host cfg with
  | inl e => inl e
  | inr c =>
      match sftp_NewClient c with
      | inl e => inl e
      | inr c' => inr {| sshc := c; sftpc := c' |}
      end
  end.

(** The calls [dialSSHSFTP] logs. *)
Definition dial_events (host : string) (cfg : option ClientConfig) (t : Trace)
    : Trace :=
  EvSshDial host cfg ::
  match ssh_Dial (dials t) host cfg with
  | inl _ => []
  | inr c => [EvSftpNewClient (ssh_id c)]
  end.

Lemma dialSSHSFTP_run host cfg t :
  dialSSHSFTP host cfg t = (dial_outcome host cfg t, t ++ dial_events host cfg t).
Proof.
  unfold dialSSHSFTP, sshDial, sftpNewClient, dial_outcome, dial_events. run.
  destruct (ssh_Dial (dials t) host cfg) as [e | c]; [done |].
  rewrite <- app_assoc. by destruct (sftp_NewClient c).
Qed.

Lemma dials_dial_events host cfg t : dials (dial_events host cfg t) = 1%nat.
Proof.
  unfold dial_events. by destruct (ssh_Dial (dials t) host cfg).
Qed.

(** A lazy dial is a dial with the default configuration. *)
Lemma lazyDial_absent rt host t :
  conn rt !! host = None →
  lazyDial rt host t =
    (match dial_outcome host (config rt) t with
     | inl e => (None, Some e, rt)
     | inr p =>
         (Some p, None, {| config := config rt; conn := <[host := p]> (conn rt) |})
     end,
     t ++ dial_events host (config rt) t).
Proof.
  intros Hc. unfold lazyDial, Dial. rewrite Hc.
  assert (match config rt with None => config rt | Some _ => config rt end
          = config rt) as -> by (by destruct (config rt)).
  unfold bind at 1 2. rewrite dialSSHSFTP_run.
  destruct (dial_outcome host (config rt) t) as [e | p]; run; [done |].
  cbn [conn]. by rewrite lookup_insert_eq.
Qed.

(** C7.  [lazyDial] returns the pooled pair of a host without any call
    when there is one; otherwise it dials once with the default
    configuration and, when the dial succeeds, pools the new pair and
    returns it.  A second call for the same host, after a call that
    returned a pair, returns the same pair and dials nothing, so that the
    two calls together dial at most once. *)
Theorem lazyDial_contract (rt : RoundTripper) (host : string) (t : Trace) :
  (∀ p, conn rt !! host = Some p →
     lazyDial rt host t = (Some p, None, rt, t)) ∧
  (conn rt !! host = None →
     ∀ p, dial_outcome host (config rt) t = inr p →
       lazyDial rt host t =
         (Some p, None,
          {| config := config rt; conn := <[host := p]> (conn rt) |},
          t ++ dial_events host (config rt) t)) ∧
  (∀ p e rt1 t1, lazyDial rt host t = (Some p, e, rt1, t1) →
     e = None ∧
     conn rt1 !! host = Some p ∧
     lazyDial rt1 host t1 = (Some p, None, rt1, t1) ∧
     (dials t1 ≤ S (dials t))%nat).
Proof.
  split_and!.
  - intros p Hp. unfold lazyDial. by rewrite Hp.
  - intros Hc p Hd. rewrite lazyDial_absent by done. by rewrite Hd.
  - intros p e rt1 t1 Hr.
    destruct (conn rt !! host) as [p0 |] eqn:Hc.
    + unfold lazyDial in Hr. rewrite Hc in Hr. unfold ret in Hr. simplify_eq.
      split_and!; [done | done | | lia].
      unfold lazyDial. by rewrite Hc.
    + rewrite lazyDial_absent in Hr by done.
      destruct (dial_outcome host (config rt) t) as [e' | p']; simplify_eq.
      cbn [conn].
      split_and!; [done | by rewrite lookup_insert_eq | |].
      * unfold lazyDial. cbn [conn]. by rewrite lookup_insert_eq.
      * rewrite dials_app, dials_dial_events. lia.
Qed.

(** ** Method dispatch *)

(** C10.  For a request whose method is not [GET], [RoundTrip] first
    resolves the session of the target host, dialing it when the pool has
    none.  When that fails the call returns no response and the dial
    error; only when it succeeds does it return the 405 response, whose
    body is nil. *)
Theorem RoundTrip_other_method (rt : RoundTripper) (r : Request) (t : Trace) :
  Method r ≠ "GET" →
  (∀ p e rt' t', lazyDial rt (URL_Host r) t = (p, Some e, rt', t') →
     RoundTrip rt r t = (Err e, rt', t')) ∧
  (∀ p rt' t', lazyDial rt (URL_Host r) t = (p, None, rt', t') →
     RoundTrip rt r t =
       (Ok (httpResponse StatusMethodNotAllowed None ∅), rt', t') ∧
     StatusCode (httpResponse StatusMethodNotAllowed None ∅) = 405 ∧
     Body (httpResponse StatusMethodNotAllowed None ∅) = None) ∧
  (conn rt !! URL_Host r = None →
     ∀ e, dial_outcome (URL_Host r) (config rt) t = inl e →
       RoundTrip rt r t =
         (Err e, rt, t ++ dial_events (URL_Host r) (config rt) t) ∧
       dials (t ++ dial_events (URL_Host r) (config rt) t) = S (dials t)) ∧
  (conn rt !! URL_Host r = None →
     ∀ p, dial_outcome (URL_Host r) (config rt) t = inr p →
       RoundTrip rt r t =
         (Ok (httpResponse StatusMethodNotAllowed None ∅),
          {| config := config rt; conn := <[URL_Host r := p]> (conn rt) |},
          t ++ dial_events (URL_Host r) (config rt) t)).
Proof.
  intros Hm. split_and!.
  - intros p e rt' t' Hl. unfold RoundTrip, bind. by rewrite Hl.
  - intros p rt' t' Hl. unfold RoundTrip, bind. rewrite Hl.
    by rewrite decide_False by done.
  - intros Hc e Hd. split.
    + unfold RoundTrip, bind. rewrite lazyDial_absent by done. by rewrite Hd.
    + rewrite dials_app, dials_dial_events. lia.
  - intros Hc p Hd. unfold RoundTrip, bind.
    rewrite lazyDial_absent by done. rewrite Hd.
    by rewrite decide_False by done.
Qed.

End Pool.

(** ** Response assembly *)

Lemma Header_Add_fold (k : string) (vs : list string) : ∀ (h : Header) k',
  foldl (λ h vv, Header_Add h k vv) h vs !! k' =
    if decide (k' = k)
    then match vs with [] => h !! k | _ => Some (default [] (h !! k) ++ vs) end
    else h !! k'.
Proof.
  induction vs as [| v vs IH]; intros h k'.
  - simpl. case_decide; by subst.
  - cbn [foldl]. rewrite IH. unfold Header_Add. case_decide as Hk.
    + subst k'. rewrite lookup_insert_eq. simpl.
      destruct vs; simpl; [done | by rewrite <- app_assoc].
    + by rewrite lookup_insert_ne.
Qed.

Section Responses.
Context `{GoLib}.

Lemma httpResponse_Body code body headers :
  Body (httpResponse code body headers) = body.
Proof. done. Qed.

Lemma httpResponse_StatusCode code body headers :
  StatusCode (httpResponse code body headers) = code.
Proof. done. Qed.

(** The values under one key after the caller's headers were added to the
    headers already set. *)
Definition merged (o1 o2 : option (list string)) : option (list string) :=
  match o2 with
  | None | Some [] => o1
  | Some vs => Some (default [] o1 ++ vs)
  end.

Lemma copied_headers (h0 headers : Header) (k : string) :
  map_fold (λ k v h, foldl (λ h vv, Header_Add h k vv) h v) h0 headers !! k =
    merged (h0 !! k) (headers !! k).
Proof.
  revert k.
  apply (map_fold_weak_ind
           (λ r (m : Header), ∀ k, r !! k = merged (h0 !! k) (m !! k))).
  - intros k. by rewrite lookup_empty.
  - intros i x m r Hi IH k. rewrite Header_Add_fold. case_decide as Hki.
    + subst i. rewrite lookup_insert_eq, IH, Hi. by destruct x.
    + rewrite lookup_insert_ne by done. apply IH.
Qed.

(** The [Content-Type] of a response assembled from headers that carry
    exactly one: that one, unless it is empty. *)
Lemma httpResponse_Content_Type code body (headers : Header) (c : string) :
  headers !! "Content-Type" = Some [c] →
  Header_Get (Header_ (httpResponse code body headers)) "Content-Type" =
    if decide (c = "") then "text/plain; charset=utf-8" else c.
Proof.
  intros Hc. unfold httpResponse. cbn [Header_].
  set (h1 := map_fold _ _ headers).
  assert (h1 !! "Content-Type" = Some [c]) as H1.
  { unfold h1. rewrite copied_headers, Hc. done. }
  set (h2 := if decide (Header_Get h1 "Date" = "") then _ else h1).
  assert (h2 !! "Content-Type" = Some [c]) as H2.
  { unfold h2. case_decide; [| done]. unfold Header_Set.
    by rewrite lookup_insert_ne. }
  set (h3 := if decide (Header_Get h2 "Content-Type" = "") then _ else h2).
  assert (Header_Get h3 "Content-Type" =
          if decide (c = "") then "text/plain; charset=utf-8" else c) as H3.
  { unfold h3. assert (Header_Get h2 "Content-Type" = c) as ->
      by (unfold Header_Get; by rewrite H2).
    case_decide; [| unfold Header_Get; by rewrite H2].
    unfold Header_Get, Header_Set. by rewrite lookup_insert_eq. }
  destruct (decide (code ≠ StatusOK ∧ Header_Get h3 "Connection" = ""));
    [| done].
  rewrite <- H3. unfold Header_Get, Header_Set. by rewrite lookup_insert_ne.
Qed.

End Responses.

(** ** Copying from a remote file *)

Lemma set_pos_same (f : RemoteFile) : set_pos f (rf_pos f) = f.
Proof. by destruct f. Qed.

Lemma set_pos_set_pos (f : RemoteFile) (a b : nat) :
  set_pos (set_pos f a) b = set_pos f b.
Proof. done. Qed.

(** A file without read fault, read from its start: a copy of at most
    its length succeeds and delivers that prefix. *)
Lemma copyN_prefix (f : RemoteFile) (n : Z) :
  rf_fault f = None → rf_pos f = 0%nat → 0 ≤ n ≤ len (rf_data f) →
  copyN f n = (n, None, take (Z.to_nat n) (rf_data f), set_pos f (Z.to_nat n)).
Proof.
  intros Hf Hp Hn. unfold copyN, read_limited. rewrite Hf, Hp. simpl.
  rewrite drop_0. unfold len in *. rewrite length_take.
  rewrite decide_True by lia. do 2 f_equal. lia.
Qed.

(** Asked for more bytes than the file has, the copy delivers the whole
    file and fails with [io.EOF]. *)
Lemma copyN_short (f : RemoteFile) (n : Z) :
  rf_fault f = None → rf_pos f = 0%nat → len (rf_data f) < n →
  copyN f n = (len (rf_data f), Some EOF, rf_data f, set_pos f (length (rf_data f))).
Proof.
  intros Hf Hp Hn. unfold copyN, read_limited. rewrite Hf, Hp. simpl.
  rewrite drop_0. unfold len in *. rewrite take_ge by lia.
  rewrite decide_False by lia. rewrite decide_True by (split; [lia | done]).
  done.
Qed.

Lemma copyN_Close (f : RemoteFile) (n : Z) :
  rf_Close (copyN f n).2 = rf_Close f.
Proof.
  unfold copyN, read_limited.
  destruct (rf_fault f) as [[k e] |]; repeat case_decide; done.
Qed.

(** ** The streaming producer *)

Definition first_error (e1 e2 : option error) : option error :=
  match e1 with Some _ => e1 | None => e2 end.

(** One run of the producer, whatever the copy does. *)
Lemma stream_run (f : RemoteFile) (size : Z) (t : Trace) n e bs f' :
  copyN f size = (n, e, bs, f') →
  stream f size t =
    (Ok {| pipe_data := bs; pipe_err := first_error e (rf_Close f) |},
     t ++ [EvFileCopyN size; EvPipeWrite bs; EvFileClose;
           EvPipeClose (first_error e (rf_Close f))]).
Proof.
  intros Hcp. unfold stream. run. rewrite Hcp.
  pose proof (copyN_Close f size) as Hcl. rewrite Hcp in Hcl.
  cbn [snd] in Hcl. rewrite Hcl, Set_first.
  by rewrite <- !app_assoc.
Qed.

(** The producer on a whole file. *)
Lemma stream_whole_file (f : RemoteFile) (size : Z) (t : Trace) :
  rf_pos f = 0%nat → rf_fault f = None → size = len (rf_data f) →
  stream f size t =
    (Ok {| pipe_data := rf_data f; pipe_err := rf_Close f |},
     t ++ [EvFileCopyN size; EvPipeWrite (rf_data f); EvFileClose;
           EvPipeClose (rf_Close f)]).
Proof.
  intros Hp Hf ->.
  assert (0 ≤ len (rf_data f) ≤ len (rf_data f)) as Hr by (unfold len; lia).
  rewrite (stream_run _ _ _ _ _ _ _ (copyN_prefix f _ Hf Hp Hr)).
  unfold len. rewrite Nat2Z.id, take_ge by lia. done.
Qed.

(** C4.  The producer copies [size] bytes from the file to the pipe,
    then closes the file, then closes the write side of the pipe with the
    first error of the copy and the close.  For a file of [size] bytes
    read from its start without read fault, the pipe delivers exactly the
    contents of the file, in order, and then the error of the close of the
    file, if any. *)
Theorem stream_contract (f : RemoteFile) (size : Z) (t : Trace) :
  (∀ n e bs f', copyN f size = (n, e, bs, f') →
     stream f size t =
       (Ok {| pipe_data := bs; pipe_err := first_error e (rf_Close f) |},
        t ++ [EvFileCopyN size; EvPipeWrite bs; EvFileClose;
              EvPipeClose (first_error e (rf_Close f))])) ∧
  (rf_pos f = 0%nat → rf_fault f = None → size = len (rf_data f) →
     stream f size t =
       (Ok {| pipe_data := rf_data f; pipe_err := rf_Close f |},
        t ++ [EvFileCopyN size; EvPipeWrite (rf_data f); EvFileClose;
              EvPipeClose (rf_Close f)])).
Proof.
  split.
  - intros n e bs f'. apply stream_run.
  - apply stream_whole_file.
Qed.

(** ** The Get algorithm *)

Section GetAlgorithm.
Context `{GoLib}.

Definition open_event (p : clientPair) (r : Request) : Event :=
  EvSftpOpen (sftp_id (sftpc p)) (URL_Path r).

(** C3.  When opening the requested path fails, [get] returns the 404
    response, with a nil body and a nil error, if the failure is an SFTP
    status error with code [sftpNoSuchFile]; for every other failure, a
    status error or not, it returns a nil response and that error. *)
Theorem get_open_failure (p : clientPair) (r : Request) (e : error) (t : Trace) :
  sftp_Open (sftpc p) (URL_Path r) = inl e →
  get p r t =
    (if decide (e = StatusError sftpNoSuchFile)
     then Ok (httpResponse StatusNotFound None ∅) else Err e,
     t ++ [open_event p r]) ∧
  StatusCode (httpResponse StatusNotFound None ∅) = 404 ∧
  Body (httpResponse StatusNotFound None ∅) = None.
Proof.
  intros Ho. split; [| done]. unfold get. run. rewrite Ho.
  destruct e as [| code | msg]; try done.
  repeat case_decide; try done; congruence.
Qed.

(** The headers [get] has set when content-type discovery begins. *)
Definition file_headers (stat : FileInfo) : Header :=
  Header_Set (Header_Set ∅ "Content-Length" (pretty (Size stat)))
    "Last-Modified" (http_TimeFormat (ModTime stat)).

Lemma get_opened p r f stat t :
  sftp_Open (sftpc p) (URL_Path r) = inr f → rf_Stat f = inr stat →
  get p r t =
    (let* d := discover (file_headers stat) stat f in
     match d with
     | Err e => ret (Err e)
     | Panic => ret Panic
     | Ok (h, f) =>
         ret (Ok (httpResponse StatusOK
                    (Some {| pr_file := f; pr_size := Size stat |}) h))
     end) (t ++ [open_event p r; EvFileStat]).
Proof.
  intros Ho Hs. unfold get. run. rewrite Ho, Hs.
  by rewrite <- app_assoc.
Qed.

(** C8.  For a file whose name has an extension the table knows,
    discovery takes the content type from the table and makes no call on
    the file, so [get] logs only the open and the stat; the response
    carries that content type, and the file handed to the streaming step
    is the file as it was opened, its cursor where the open left it. *)
Theorem get_recognized_extension
    (p : clientPair) (r : Request) (f : RemoteFile) (stat : FileInfo)
    (cType : string) (t : Trace) :
  sftp_Open (sftpc p) (URL_Path r) = inr f →
  rf_Stat f = inr stat →
  mime_TypeByExtension (filepath_Ext (Name stat)) = cType →
  cType ≠ "" →
  (∀ h t0, discover h stat f t0 =
     (Ok (Header_Set h "Content-Type" cType, f), t0)) ∧
  ∃ res,
    get p r t = (Ok res, t ++ [open_event p r; EvFileStat]) ∧
    StatusCode res = 200 ∧
    Header_Get (Header_ res) "Content-Type" = cType ∧
    Body res = Some {| pr_file := f; pr_size := Size stat |} ∧
    (rf_pos f = 0%nat → ∀ b, Body res = Some b → rf_pos (pr_file b) = 0%nat).
Proof.
  intros Ho Hs Hc Hne.
  assert (∀ h t0, discover h stat f t0 =
            (Ok (Header_Set h "Content-Type" cType, f), t0)) as Hd.
  { intros h t0. unfold discover. rewrite Hc. by rewrite decide_True. }
  split; [done |].
  eexists. rewrite (get_opened _ _ _ _ _ Ho Hs). unfold bind. rewrite Hd.
  split; [reflexivity |]. split_and!; [done | | done |].
  - rewrite (httpResponse_Content_Type _ _ _ cType).
    + by rewrite decide_False.
    + unfold Header_Set. by rewrite lookup_insert_eq.
  - intros Hp b Hb. rewrite httpResponse_Body in Hb. by simplify_eq.
Qed.

(** C2, what the code does.  For an existing file whose extension the
    table does not know and whose content is shorter than 512 bytes,
    [io.CopyN(buf, f, 512)] ends with [io.EOF], and [get] returns that
    error instead of a response. *)
Theorem get_sniff_short_file
    (p : clientPair) (r : Request) (f : RemoteFile) (stat : FileInfo) (t : Trace) :
  sftp_Open (sftpc p) (URL_Path r) = inr f →
  rf_Stat f = inr stat →
  mime_TypeByExtension (filepath_Ext (Name stat)) = "" →
  rf_fault f = None → rf_pos f = 0%nat →
  len (rf_data f) < 512 →
  get p r t = (Err EOF, t ++ [open_event p r; EvFileStat; EvFileCopyN 512]).
Proof.
  intros Ho Hs Hc Hf Hp Hlen.
  rewrite (get_opened _ _ _ _ _ Ho Hs). unfold bind, discover.
  rewrite Hc. rewrite decide_False by (by intros []).
  run. rewrite copyN_short by done.
  by rewrite <- app_assoc.
Qed.

(** With at least 512 bytes of content the probe works as intended: the
    content type is sniffed from the first 512 bytes, the cursor is put
    back to byte 0, and the response is a 200 whose body delivers the
    whole file. *)
Lemma get_sniff_long_file
    (p : clientPair) (r : Request) (f : RemoteFile) (stat : FileInfo) (t : Trace) :
  sftp_Open (sftpc p) (URL_Path r) = inr f →
  rf_Stat f = inr stat →
  mime_TypeByExtension (filepath_Ext (Name stat)) = "" →
  rf_fault f = None → rf_pos f = 0%nat → rf_Seek f = None →
  512 ≤ len (rf_data f) →
  http_DetectContentType (take (Z.to_nat 512) (rf_data f)) ≠ "" →
  ∃ res,
    get p r t =
      (Ok res,
       t ++ [open_event p r; EvFileStat; EvFileCopyN 512; EvFileSeek 0]) ∧
    StatusCode res = 200 ∧
    Header_Get (Header_ res) "Content-Type" =
      http_DetectContentType (take (Z.to_nat 512) (rf_data f)) ∧
    Body res = Some {| pr_file := f; pr_size := Size stat |} ∧
    (Size stat = len (rf_data f) →
     ∀ t', (ReadAll {| pr_file := f; pr_size := Size stat |} t').1 =
             Ok {| pipe_data := rf_data f; pipe_err := rf_Close f |}).
Proof.
  intros Ho Hs Hc Hf Hp Hk Hlen Hd.
  rewrite (get_opened _ _ _ _ _ Ho Hs). unfold bind, discover.
  rewrite Hc. rewrite decide_False by (by intros []).
  run. rewrite copyN_prefix by (try done; lia).
  rewrite slice_in_range
    by (unfold len in *; rewrite ?length_take; lia).
  cbn [rf_Seek set_pos]. rewrite Hk.
  rewrite set_pos_set_pos, <- Hp, set_pos_same.
  rewrite Z.sub_0_r. change (Z.to_nat 0) with 0%nat.
  rewrite drop_0, take_take, Nat.min_id.
  eexists. split; [by rewrite <- !app_assoc |]. split_and!; [done | | done |].
  - rewrite (httpResponse_Content_Type _ _ _
               (http_DetectContentType (take (Z.to_nat 512) (rf_data f)))).
    + by rewrite decide_False.
    + unfold Header_Set. by rewrite lookup_insert_eq.
  - intros Hsz t'. unfold ReadAll. cbn [pr_file pr_size].
    by rewrite stream_whole_file.
Qed.

End GetAlgorithm.

(** ** The filesystem adapter *)

Section Adapter.
Context `{GoLib}.

(** The handle [Open] builds before it looks at the kind of the target. *)
Definition opened (fs : FileSystem) (f : RemoteFile) : File :=
  {| f_File := f; f_sftpc := sftpc (pair fs); f_name := path fs;
     f_offset := 0; f_eofNext := false |}.

Lemma Readdir_trace (h : File) (count : Z) (t : Trace) :
  f_eofNext h = false →
  (Readdir h count t).2 = t ++ [readdir_event h].
Proof.
  intros Hh. unfold Readdir. rewrite Hh. run.
  destruct (sftp_ReadDir _ _); [done |].
  repeat case_decide; try done.
  - by destruct (slice_from _ _).
  - by destruct (slice _ _ _).
Qed.

(** For a directory the name is the joined path with a slash appended. *)
Lemma Open_directory fs name f stat t :
  sftp_Open (sftpc (pair fs)) (filepath_Join (path fs) name) = inr f →
  rf_Stat f = inr stat → IsDir stat = true →
  Open fs name t =
    (Ok (set_name (opened fs f) (filepath_Join (path fs) name +:+ "/")),
     t ++ [EvSftpOpen (sftp_id (sftpc (pair fs))) (filepath_Join (path fs) name);
           EvFileStat]).
Proof.
  intros Ho Hs Hd. unfold Open. run. rewrite Ho, Hs, Hd.
  by rewrite <- app_assoc.
Qed.

(** [Readdir] reads nothing of the embedded file: two handles with the
    same client, name, offset and completion flag get the same answer
    through the same request. *)
Lemma Readdir_ignores_file (h1 h2 : File) (count : Z) (t : Trace) :
  f_sftpc h1 = f_sftpc h2 → f_name h1 = f_name h2 →
  f_offset h1 = f_offset h2 → f_eofNext h1 = f_eofNext h2 →
  (Readdir h1 count t).1.1 = (Readdir h2 count t).1.1 ∧
  (Readdir h1 count t).2 = (Readdir h2 count t).2.
Proof.
  intros Hc Hn Ho He. unfold Readdir. rewrite Hc, Hn, Ho, He.
  destruct (f_eofNext h2); [done |]. run.
  destruct (sftp_ReadDir _ _); [done |].
  repeat case_decide; try done.
  - cbn [f_offset set_eofNext]. rewrite Ho. by destruct (slice_from _ _).
  - by destruct (slice _ _ _).
Qed.

(** C9 (as amended).  A successful [Open] of a target that is not a
    directory returns a handle whose [name] is the root path of the
    adapter and not the joined path.  Every [Readdir] on that handle
    therefore asks the server for [filepath.Dir] of the root path and
    pages through the sorted listing of that directory; which directory
    is listed is fixed by the root path alone, the same whatever file was
    opened. *)
Theorem Open_regular_file
    (fs : FileSystem) (name : string) (f : RemoteFile) (stat : FileInfo)
    (t : Trace) :
  sftp_Open (sftpc (pair fs)) (filepath_Join (path fs) name) = inr f →
  rf_Stat f = inr stat →
  IsDir stat = false →
  Open fs name t =
    (Ok (opened fs f),
     t ++ [EvSftpOpen (sftp_id (sftpc (pair fs))) (filepath_Join (path fs) name);
           EvFileStat]) ∧
  f_name (opened fs f) = path fs ∧
  (∀ count t',
     (Readdir (opened fs f) count t').2 =
       t' ++ [EvSftpReadDir (sftp_id (sftpc (pair fs))) (filepath_Dir (path fs))]) ∧
  (∀ fis0, sftp_ReadDir (sftpc (pair fs)) (filepath_Dir (path fs)) = inr fis0 →
     (∀ count t', count ≤ 0 →
        (Readdir (opened fs f) count t').1.1 = Ok (sort_byBaseName fis0)) ∧
     (∀ count t', 0 < count → is_int (len fis0) →
        ∃ pages h' t'',
          Readdir_pages (S (length fis0)) (opened fs f) count t' =
            (Some pages, h', t'') ∧
          concat pages = sort_byBaseName fis0)) ∧
  (∀ f2 count t',
     (Readdir (opened fs f2) count t').1.1 = (Readdir (opened fs f) count t').1.1 ∧
     (Readdir (opened fs f2) count t').2 = (Readdir (opened fs f) count t').2).
Proof.
  intros Ho Hs Hd. split_and!.
  - unfold Open. run. rewrite Ho, Hs, Hd. by rewrite <- app_assoc.
  - done.
  - intros count t'. by rewrite Readdir_trace.
  - intros fis0 Hl. split.
    + intros count t' Hc.
      rewrite (Readdir_all fis0); [done | by split | by left].
    + intros count t' Hc Hn.
      assert (lists fis0 (opened fs f)) as Hlists by (by split).
      assert (Z.to_nat (len fis0 - f_offset (opened fs f)) < S (length fis0))%nat
        as Hfuel by (unfold len; simpl; lia).
      destruct (Readdir_pages_from fis0 count (S (length fis0)) (opened fs f) t'
                  Hlists Hn Hc ltac:(done) (or_introl eq_refl) Hfuel)
        as (pages & h' & t'' & Hr & Hcat & _).
      exists pages, h', t''. split; [done |]. by rewrite Hcat.
  - intros f2 count t'. by apply Readdir_ignores_file.
Qed.

End Adapter.

(** * The contracts on the concrete environment *)

Section Concrete.
#[local] Existing Instance Example.lib.
Import Example.

(** The README's request: [GET] of [/home/user/hello.txt], three bytes. *)
Example get_hello :
  ∃ res body,
    get pair0 (GET "h1:22" "/home/user/hello.txt") [] =
      (Ok res, [EvSftpOpen 1 "/home/user/hello.txt"; EvFileStat]) ∧
    StatusCode res = 200 ∧
    Header_Get (Header_ res) "Content-Length" = "3" ∧
    Header_Get (Header_ res) "Content-Type" = "text/plain; charset=utf-8" ∧
    Header_Get (Header_ res) "Connection" = "" ∧
    Body res = Some body ∧
    (ReadAll body []).1 = Ok {| pipe_data := hi; pipe_err := None |}.
Proof.
  eexists _, _. split; [vm_compute; reflexivity |].
  split_and!; vm_compute; reflexivity.
Qed.

Example post_any :
  (RoundTrip rt_empty (POST "h1:22" "/home/user/hello.txt") []).2 =
    [EvSshDial "h1:22" (Some cfg); EvSftpNewClient 0].
Proof. vm_compute. reflexivity. Qed.

Example root_handle_opened :
  Open fs "/" [] = (Ok root_handle, [EvSftpOpen 1 "/home/user"; EvFileStat]).
Proof. vm_compute. reflexivity. Qed.

Definition a_ : FileInfo := fi "a" 3 false.
Definition b_ : FileInfo := fi "b" 600 false.
Definition docs_ : FileInfo := fi "docs" 0 true.
Definition hello_ : FileInfo := fi "hello.txt" 3 false.

Lemma home_user_sorted : sort_byBaseName home_user = [a_; b_; docs_; hello_].
Proof. reflexivity. Qed.

Lemma home_user_NoDup : NoDup (Name <$> home_user).
Proof. apply (bool_decide_unpack _). vm_compute. exact I. Qed.

Lemma home_user_int : is_int (len home_user).
Proof. unfold is_int, len. simpl. lia. Qed.

(** C1, as the claim words it, fails on the code.  After one page of one
    entry the offset is 1 and the entries from the offset on are
    [b; docs; hello.txt], yet a call with [count = 0], and likewise a call
    with [count = 5], returns the listing from its start, [a] included a
    second time. *)
Lemma Readdir_restarts_from_the_start :
  Readdir root_handle 1 [] =
    (Ok [a_], page1_handle, [EvSftpReadDir 1 "/home/user"]) ∧
  f_offset page1_handle = 1 ∧
  f_eofNext page1_handle = false ∧
  slice_from (sort_byBaseName home_user) (f_offset page1_handle) =
    Some [b_; docs_; hello_] ∧
  (Readdir page1_handle 0 []).1 =
    (Ok [a_; b_; docs_; hello_], set_eofNext page1_handle true) ∧
  (Readdir page1_handle 5 []).1 =
    (Ok [a_; b_; docs_; hello_], set_eofNext page1_handle true) ∧
  [a_; b_; docs_; hello_] ≠ [b_; docs_; hello_].
Proof. split_and!; try (vm_compute; reflexivity). discriminate. Qed.

Lemma Readdir_contract_witness :
  (∃ pages f' t',
     Readdir_pages 5 root_handle 3 [] = (Some pages, f', t') ∧
     concat pages = [a_; b_; docs_; hello_] ∧
     concat pages ≡ₚ home_user ∧
     StronglySorted name_lt (concat pages) ∧
     f_eofNext f' = true ∧
     Readdir f' 3 t' = (Err EOF, f', t')) ∧
  Readdir root_handle 0 [] =
    (Ok [a_; b_; docs_; hello_], set_eofNext root_handle true,
     [EvSftpReadDir 1 "/home/user"]) ∧
  Readdir root_handle 4 [] =
    (Ok [a_; b_; docs_; hello_], set_eofNext root_handle true,
     [EvSftpReadDir 1 "/home/user"]).
Proof.
  assert (sftp_ReadDir (f_sftpc root_handle)
            (filepath_Dir (f_name root_handle)) = inr home_user) as Hl
    by (vm_compute; reflexivity).
  destruct (Readdir_contract root_handle home_user eq_refl Hl
              home_user_NoDup home_user_int) as (Hpages & Hall & Hfits).
  split_and!.
  - destruct (Hpages 3 [] eq_refl ltac:(lia))
      as (pages & f' & t' & Hr & Hcat & Hperm & Hsort & _ & Hdone & Heof).
    exists pages, f', t'. rewrite <- home_user_sorted. auto 10.
  - rewrite <- home_user_sorted. apply (Hall 0 []). lia.
  - rewrite <- home_user_sorted. apply (Hfits 4 [] eq_refl).
    unfold len. simpl. lia.
Defined.

Lemma FileSystem_Close_example :
  FileSystem_Close {| pair := pair_stuck; path := "/home/user" |} [] =
    (Some (OtherError "close failed"), [EvSftpClose 8; EvSshClose 7]).
Proof. reflexivity. Qed.

Lemma rt_two_NoDup : NoDup (([] : list (string * clientPair)).*1 ++ ["h1:22"; "h2:22"]).
Proof. apply (bool_decide_unpack _). vm_compute. exact I. Qed.

Lemma Close_stops_at_first_error_witness :
  ∃ rt',
    Close ["h1:22"; "h2:22"] rt_two [] =
      (Err (OtherError "close failed"), rt', [EvSftpClose 8]) ∧
    conn rt' !! "h1:22" = Some pair_stuck ∧
    conn rt' !! "h2:22" = Some pair0.
Proof.
  destruct (Close_stops_at_first_error rt_two [] "h1:22" pair_stuck
              (OtherError "close failed") ["h2:22"] [] rt_two_NoDup)
    as (rt' & Hr & _ & _ & Hk & Hrest).
  - intros k' p' Hin. by apply elem_of_nil in Hin.
  - reflexivity.
  - reflexivity.
  - exists rt'. split_and!; [exact Hr | exact Hk |].
    rewrite Hrest by (by left). reflexivity.
Defined.

(** The other iteration order: the healthy pair is visited first, closed
    and removed; the loop then stops at the pair that fails. *)
Example Close_other_order :
  ∃ rt',
    Close ["h2:22"; "h1:22"] rt_two [] =
      (Err (OtherError "close failed"), rt',
       [EvSftpClose 1; EvSshClose 0; EvSftpClose 8]) ∧
    conn rt' !! "h1:22" = Some pair_stuck ∧
    conn rt' !! "h2:22" = None.
Proof. eexists. split_and!; vm_compute; reflexivity. Qed.

Definition rt_h1 : RoundTripper :=
  {| config := Some cfg; conn := <["h1:22" := pair0]> ∅ |}.

Lemma lazyDial_contract_witness :
  lazyDial rt_empty "h1:22" [] =
    (Some pair0, None, rt_h1, [EvSshDial "h1:22" (Some cfg); EvSftpNewClient 0]) ∧
  lazyDial rt_h1 "h1:22" [EvSshDial "h1:22" (Some cfg); EvSftpNewClient 0] =
    (Some pair0, None, rt_h1, [EvSshDial "h1:22" (Some cfg); EvSftpNewClient 0]) ∧
  (dials [EvSshDial "h1:22" (Some cfg); EvSftpNewClient 0] ≤ 1)%nat.
Proof.
  destruct (lazyDial_contract rt_empty "h1:22" []) as (_ & Hnew & Htwice).
  pose proof (Hnew eq_refl pair0 eq_refl) as Hfirst.
  split; [exact Hfirst |].
  destruct (Htwice _ _ _ _ Hfirst) as (_ & _ & Hsecond & Hdials).
  split; [exact Hsecond | exact Hdials].
Defined.

Lemma RoundTrip_other_method_witness :
  RoundTrip rt_empty (POST "down:22" "/home/user/hello.txt") [] =
    (Err (OtherError "connection refused"), rt_empty,
     [EvSshDial "down:22" (Some cfg)]) ∧
  RoundTrip rt_h1 (POST "h1:22" "/home/user/hello.txt") [] =
    (Ok (httpResponse StatusMethodNotAllowed None ∅), rt_h1, []) ∧
  Body (httpResponse StatusMethodNotAllowed None ∅) = None.
Proof.
  assert (Method (POST "down:22" "/home/user/hello.txt") ≠ "GET") as Hm by done.
  destruct (RoundTrip_other_method rt_empty _ [] Hm) as (_ & _ & Hfail & _).
  destruct (RoundTrip_other_method rt_h1 (POST "h1:22" "/home/user/hello.txt") [] Hm)
    as (_ & Hok & _).
  split; [apply (Hfail eq_refl (OtherError "connection refused") eq_refl) |].
  destruct (Hok (Some pair0) rt_h1 [] eq_refl) as (Hr & _ & Hb).
  by split.
Defined.

Lemma get_open_failure_witness :
  get pair0 (GET "h1:22" "/nowhere") [] =
    (Ok (httpResponse StatusNotFound None ∅), [EvSftpOpen 1 "/nowhere"]) ∧
  Body (httpResponse StatusNotFound None ∅) = None ∧
  get pair0 (GET "h1:22" "/root/secret") [] =
    (Err (StatusError 3), [EvSftpOpen 1 "/root/secret"]) ∧
  get pair0 (GET "h1:22" "/dev/broken") [] =
    (Err (OtherError "connection lost"), [EvSftpOpen 1 "/dev/broken"]).
Proof.
  destruct (get_open_failure pair0 (GET "h1:22" "/nowhere") (StatusError 2) []
              eq_refl) as (H404 & _ & Hbody).
  destruct (get_open_failure pair0 (GET "h1:22" "/root/secret") (StatusError 3) []
              eq_refl) as (Hdenied & _).
  destruct (get_open_failure pair0 (GET "h1:22" "/dev/broken")
              (OtherError "connection lost") [] eq_refl) as (Hlost & _).
  split_and!; [exact H404 | exact Hbody | exact Hdenied | exact Hlost].
Defined.

Lemma get_recognized_extension_witness :
  ∃ res,
    get pair0 (GET "h1:22" "/home/user/hello.txt") [] =
      (Ok res, [EvSftpOpen 1 "/home/user/hello.txt"; EvFileStat]) ∧
    Header_Get (Header_ res) "Content-Type" = "text/plain; charset=utf-8" ∧
    Body res = Some {| pr_file := regular "hello.txt" hi; pr_size := 3 |}.
Proof.
  assert (mime_TypeByExtension (filepath_Ext (Name (fi "hello.txt" 3 false)))
          = "text/plain; charset=utf-8") as Hc by (vm_compute; reflexivity).
  destruct (get_recognized_extension pair0 (GET "h1:22" "/home/user/hello.txt")
              (regular "hello.txt" hi) (fi "hello.txt" 3 false)
              "text/plain; charset=utf-8" [] eq_refl eq_refl Hc)
    as (_ & res & Hr & _ & Hct & Hb & _); [done |].
  exists res. by split_and!.
Defined.

Lemma get_sniff_short_file_witness :
  get pair0 (GET "h1:22" "/home/user/a") [] =
    (Err EOF, [EvSftpOpen 1 "/home/user/a"; EvFileStat; EvFileCopyN 512]).
Proof.
  apply (get_sniff_short_file pair0 (GET "h1:22" "/home/user/a")
           (regular "a" (bytes_of "abc")) (fi "a" 3 false) []);
    try (vm_compute; reflexivity).
Defined.

Lemma stream_contract_witness :
  stream (regular "hello.txt" hi) 3 [] =
    (Ok {| pipe_data := hi; pipe_err := None |},
     [EvFileCopyN 3; EvPipeWrite hi; EvFileClose; EvPipeClose None]).
Proof.
  destruct (stream_contract (regular "hello.txt" hi) 3 []) as (_ & Hwhole).
  apply Hwhole; reflexivity.
Defined.

(** Opening [docs/notes.txt] under the root [/home/user]: the handle
    lists [/home], not [/home/user/docs]. *)
Lemma Open_regular_file_witness :
  Open fs "/docs/notes.txt" [] =
    (Ok (opened fs (regular "notes.txt" (bytes_of "two"))),
     [EvSftpOpen 1 "/home/user/docs/notes.txt"; EvFileStat]) ∧
  f_name (opened fs (regular "notes.txt" (bytes_of "two"))) = "/home/user" ∧
  (Readdir (opened fs (regular "notes.txt" (bytes_of "two"))) 0 []).2 =
    [EvSftpReadDir 1 "/home"] ∧
  (Readdir (opened fs (regular "notes.txt" (bytes_of "two"))) 0 []).1.1 =
    Ok (sort_byBaseName home) ∧
  remote_ReadDir "/home/user/docs" = inr home_user_docs ∧
  (Readdir (opened fs (regular "hello.txt" hi)) 0 []).1.1 =
    (Readdir (opened fs (regular "notes.txt" (bytes_of "two"))) 0 []).1.1.
Proof.
  assert (sftp_Open (sftpc (pair fs)) (filepath_Join (path fs) "/docs/notes.txt")
          = inr (regular "notes.txt" (bytes_of "two"))) as Hf
    by (vm_compute; reflexivity).
  destruct (Open_regular_file fs "/docs/notes.txt"
              (regular "notes.txt" (bytes_of "two")) (fi "notes.txt" 3 false) []
              Hf eq_refl eq_refl) as (Ho & Hn & Ht & Hl & Hsame).
  assert (sftp_ReadDir (sftpc (pair fs)) (filepath_Dir (path fs)) = inr home)
    as Hhome by (vm_compute; reflexivity).
  destruct (Hl home Hhome) as (Hall & _).
  split_and!; [exact Ho | exact Hn | apply Ht | | reflexivity | apply Hsame].
  apply Hall. lia.
Defined.

End Concrete.

(** * The adapter on a root written with a trailing separator *)

Section ConcreteUnix.
#[local] Existing Instance Unix.lib.
Import Example.

(** Go's own examples of [Clean], [Dir] and [Join], and the paths used
    below. *)
Example Unix_Clean_examples :
  Forall (λ p, Unix.Clean p.1 = p.2)
    [("", "."); ("abc/", "abc"); ("/", "/"); ("//abc//", "/abc");
     ("abc/./def", "abc/def"); ("abc/def/../..", "."); ("/abc/def/../../..", "/");
     ("abc/def/../../../ghi/jkl/../../../mno", "../../mno");
     ("abc/../../././../def", "../../def"); ("/home/user/", "/home/user")].
Proof. apply (bool_decide_unpack _). vm_compute. exact I. Qed.

Example Unix_Dir_examples :
  Forall (λ p, Unix.Dir p.1 = p.2)
    [("", "."); ("/.", "/"); ("/", "/"); ("/foo", "/"); ("x/", "x"); ("abc", ".");
     ("abc/def", "abc"); ("a/b/c.x", "a/b"); ("////", "/");
     ("/home/user", "/home"); ("/home/user/", "/home/user");
     ("/home/user/hello.txt", "/home/user")].
Proof. apply (bool_decide_unpack _). vm_compute. exact I. Qed.

Example Unix_Join_examples :
  Forall (λ p, Unix.Join p.1.1 p.1.2 = p.2)
    [("a", "b", "a/b"); ("a", "", "a"); ("", "b", "b"); ("/", "a", "/a");
     ("a/", "b", "a/b"); ("", "", "");
     ("/home/user", "/docs/notes.txt", "/home/user/docs/notes.txt");
     ("/home/user/", "/hello.txt", "/home/user/hello.txt")].
Proof. apply (bool_decide_unpack _). vm_compute. exact I. Qed.

(** C9, as the claim words it, fails on the code.  With the root written
    [/home/user/], opening [/hello.txt] gives a handle named after the
    root, and [filepath.Dir] of that name is [/home/user]: [Readdir]
    lists the directory that contains the opened file, [hello.txt]
    among its entries, and not [/home], the parent of the root. *)
Lemma Readdir_lists_the_directory_of_the_file :
  Open Unix.fs_slash "/hello.txt" [] =
    (Ok (opened Unix.fs_slash (regular "hello.txt" hi)),
     [EvSftpOpen 1 "/home/user/hello.txt"; EvFileStat]) ∧
  f_name (opened Unix.fs_slash (regular "hello.txt" hi)) = "/home/user/" ∧
  Readdir (opened Unix.fs_slash (regular "hello.txt" hi)) 0 [] =
    (Ok [a_; b_; docs_; hello_],
     set_eofNext (opened Unix.fs_slash (regular "hello.txt" hi)) true,
     [EvSftpReadDir 1 "/home/user"]) ∧
  filepath_Dir (filepath_Join (path Unix.fs_slash) "/hello.txt") = "/home/user" ∧
  filepath_Dir (Unix.Clean (path Unix.fs_slash)) = "/home" ∧
  "/home/user" ≠ "/home".
Proof. split_and!; try (vm_compute; reflexivity). discriminate. Qed.

End ConcreteUnix.

(** * Further contracts of the package *)

(** ** stickyError over any number of steps *)

(** After any sequence of [Set] calls, [Get] returns the first non-nil
    error of the sequence, and nil when there is none. *)
Theorem stickyError_keeps_first (es : list (option error)) :
  Get (foldl Set_ stickyError_zero es) = head (omap id es).
Proof.
  assert (∀ e, Get (foldl Set_ e es) =
               match err e with Some x => Some x | None => head (omap id es) end)
    as Hgen.
  { induction es as [| e0 es IH]; intros e.
    - simpl. unfold Get. by destruct (err e).
    - cbn [foldl]. rewrite IH. unfold Set_.
      destruct (err e) as [x |] eqn:He; [by rewrite He |].
      cbn [err]. by destruct e0. }
  apply Hgen.
Qed.

(** ** The sorted listing *)

(** On uniquely named entries the sorted listing holds every entry of
    the listing once, is strictly ascending by base name, and does not
    depend on the order in which the server sent the entries. *)
Theorem sort_byBaseName_canonical (l1 l2 : list FileInfo) :
  NoDup (Name <$> l1) →
  l1 ≡ₚ l2 →
  sort_byBaseName l1 ≡ₚ l1 ∧
  StronglySorted name_lt (sort_byBaseName l1) ∧
  sort_byBaseName l1 = sort_byBaseName l2.
Proof.
  intros Hnd Hp. split_and!.
  - apply sort_byBaseName_perm.
  - by apply sort_byBaseName_strict.
  - apply strictly_sorted_unique.
    + by apply sort_byBaseName_strict.
    + apply sort_byBaseName_strict. by rewrite <- Hp.
    + by rewrite !sort_byBaseName_perm.
Qed.

(** ** The pager under arbitrary page sizes *)

Section PagerSequences.
Context `{GoLib}.

(** A run of [Readdir] calls on one handle, one call per page size of
    [counts], with the result of each call. *)
Fixpoint Readdir_seq (counts : list Z) (f : File)
    : M (list (result (list FileInfo)) * File) :=
  match counts with
  | [] => ret ([], f)
  | c :: counts' =>
      let* r := Readdir f c in
      let* r' := Readdir_seq counts' r.2 in
      ret (r.1 :: r'.1, r'.2)
  end.

(** Once a handle has signalled completion, every later call fails with
    [io.EOF] whatever its page size, asks the server nothing and leaves
    the handle as it is. *)
Theorem Readdir_seq_after_completion (counts : list Z) (f : File) (t : Trace) :
  f_eofNext f = true →
  Readdir_seq counts f t = (replicate (length counts) (Err EOF), f, t).
Proof.
  intros Hf. induction counts as [| c counts IH]; [done |].
  cbn [Readdir_seq]. unfold bind at 1. rewrite Readdir_done by done.
  unfold bind at 1. cbn [snd]. rewrite IH. done.
Qed.

(** A failing [ReadDir] is returned as it is and leaves the handle
    untouched, so that the call can be repeated. *)
Theorem Readdir_listing_error (f : File) (count : Z) (e : error) (t : Trace) :
  f_eofNext f = false →
  sftp_ReadDir (f_sftpc f) (filepath_Dir (f_name f)) = inl e →
  Readdir f count t = (Err e, f, t ++ [readdir_event f]) ∧
  Readdir_seq [count; count] f t =
    ([Err e; Err e], f, t ++ [readdir_event f; readdir_event f]).
Proof.
  intros Hf Hl.
  assert (∀ t0, Readdir f count t0 = (Err e, f, t0 ++ [readdir_event f])) as Hr.
  { intros t0. unfold Readdir. rewrite Hf. run. by rewrite Hl. }
  split; [apply Hr |].
  cbn [Readdir_seq]. unfold bind, ret. rewrite Hr. cbn [fst snd].
  rewrite Hr. cbn [fst snd]. by rewrite <- app_assoc.
Qed.

Variable fis0 : list FileInfo.

(** The handle reads the fixed listing [fis0] and its offset is within
    the listing. *)
Definition in_listing (f : File) : Prop :=
  sftp_ReadDir (f_sftpc f) (filepath_Dir (f_name f)) = inr fis0 ∧
  0 ≤ f_offset f ≤ len fis0.

(** What a call may return when the listing is fixed: entries of the
    listing, or [io.EOF]; never a panic. *)
Definition well_behaved (r : result (list FileInfo)) : Prop :=
  match r with
  | Ok page => page ⊆ fis0
  | Err e => e = EOF
  | Panic => False
  end.

Lemma Readdir_in_listing (f : File) (count : Z) (t : Trace) :
  is_int (len fis0) → in_listing f →
  well_behaved (Readdir f count t).1.1 ∧ in_listing (Readdir f count t).1.2.
Proof.
  intros Hn [Hl Ho]. unfold Readdir.
  destruct (f_eofNext f) eqn:Hf; [by split |].
  run. rewrite Hl. unfold len in *. rewrite sort_byBaseName_length.
  assert (sort_byBaseName fis0 ⊆ fis0) as Hsub
    by (intros x; by rewrite sort_byBaseName_perm).
  case_decide as Hc; [by split |].
  unfold int_sub. rewrite wrap64_small by (unfold is_int in *; lia).
  case_decide as Hc'.
  - cbn [f_offset set_eofNext].
    rewrite slice_from_in_range
      by (unfold len; rewrite sort_byBaseName_length; lia).
    split; [| by split]. cbn [fst well_behaved].
    intros x Hx. by apply Hsub, (subseteq_drop (Z.to_nat (f_offset f))).
  - unfold int_add. rewrite wrap64_small by (unfold is_int in *; lia).
    rewrite slice_in_range;
      [| lia | lia | unfold len; rewrite sort_byBaseName_length; lia].
    split.
    + cbn [fst well_behaved]. intros x Hx.
      apply Hsub, (subseteq_drop (Z.to_nat (f_offset f))).
      by eapply subseteq_take.
    + unfold in_listing. simpl. split; [done |]. unfold len. lia.
Qed.

(** With a fixed listing, no sequence of page sizes, positive, zero or
    negative, makes [Readdir] panic or return an error other than
    [io.EOF]; every page consists of entries of the listing, and the
    offset stays within the listing. *)
Theorem Readdir_seq_safe (counts : list Z) : ∀ (f : File) (t : Trace),
  is_int (len fis0) → in_listing f →
  Forall well_behaved (Readdir_seq counts f t).1.1 ∧
  in_listing (Readdir_seq counts f t).1.2.
Proof.
  induction counts as [| c counts IH]; intros f t Hn Hf; [by split |].
  cbn [Readdir_seq]. unfold bind, ret.
  destruct (Readdir_in_listing f c t Hn Hf) as [Hr Hf'].
  destruct (Readdir f c t) as [[r f'] t'] eqn:E. cbn [fst snd] in *.
  destruct (IH f' t' Hn Hf') as [Hrs Hf''].
  destruct (Readdir_seq counts f' t') as [[rs f''] t''] eqn:E'.
  cbn [fst snd] in *. split; [by constructor | done].
Qed.

(** When the directory has shrunk below the offset of a handle, a call
    with a page size smaller than the listing sets [eofNext] and then
    panics on the slice [fis[f.offset:]]. *)
Theorem Readdir_past_the_end (f : File) (count : Z) (t : Trace) :
  f_eofNext f = false →
  sftp_ReadDir (f_sftpc f) (filepath_Dir (f_name f)) = inr fis0 →
  is_int (f_offset f) → is_int (len fis0) →
  len fis0 < f_offset f →
  0 < count < len fis0 →
  Readdir f count t = (Panic, set_eofNext f true, t ++ [readdir_event f]).
Proof.
  intros Hf Hl Ho Hn Hpast Hc. unfold Readdir. rewrite Hf. run. rewrite Hl.
  unfold len in *. rewrite sort_byBaseName_length.
  rewrite decide_False by lia.
  unfold int_sub. rewrite wrap64_small by (unfold is_int in *; lia).
  rewrite decide_True by lia. cbn [f_offset set_eofNext].
  unfold slice_from. rewrite decide_False; [done |].
  unfold len. rewrite sort_byBaseName_length. lia.
Qed.

End PagerSequences.

(** ** Dialing and the pool *)

Section PoolMore.
Context `{GoLib}.

(** The configuration [Dial] passes on: the given one, or the default
    when it is nil. *)
Definition effective_config (rt : RoundTripper) (cfg : option ClientConfig)
    : option ClientConfig :=
  match cfg with None => config rt | Some _ => cfg end.

Lemma Dial_run rt host cfg t :
  Dial rt host cfg t =
    (match dial_outcome host (effective_config rt cfg) t with
     | inl e => (Some e, rt)
     | inr p => (None, {| config := config rt; conn := <[host := p]> (conn rt) |})
     end,
     t ++ dial_events host (effective_config rt cfg) t).
Proof.
  unfold Dial. fold (effective_config rt cfg). unfold bind.
  rewrite dialSSHSFTP_run.
  by destruct (dial_outcome host (effective_config rt cfg) t).
Qed.

(** What a failed attempt leaves behind: [dialSSHSFTP] returns the error
    of [ssh.Dial] without starting SFTP, and the error of
    [sftp.NewClient] without closing the SSH connection it opened. *)
Theorem dialSSHSFTP_failures (host : string) (cfg : option ClientConfig) (t : Trace) :
  (∀ e, ssh_Dial (dials t) host cfg = inl e →
     dialSSHSFTP host cfg t = (inl e, t ++ [EvSshDial host cfg])) ∧
  (∀ c e, ssh_Dial (dials t) host cfg = inr c → sftp_NewClient c = inl e →
     dialSSHSFTP host cfg t =
       (inl e, t ++ [EvSshDial host cfg; EvSftpNewClient (ssh_id c)])) ∧
  (∀ p t', dialSSHSFTP host cfg t = (inr p, t') →
     ssh_Dial (dials t) host cfg = inr (sshc p) ∧
     sftp_NewClient (sshc p) = inr (sftpc p) ∧
     t' = t ++ [EvSshDial host cfg; EvSftpNewClient (ssh_id (sshc p))]).
Proof.
  split_and!.
  - intros e He. rewrite dialSSHSFTP_run. unfold dial_outcome, dial_events.
    by rewrite He.
  - intros c e Hc He. rewrite dialSSHSFTP_run. unfold dial_outcome, dial_events.
    by rewrite Hc, He.
  - intros p t' Hd. rewrite dialSSHSFTP_run in Hd.
    unfold dial_outcome, dial_events in Hd.
    destruct (ssh_Dial (dials t) host cfg) as [e | c]; [simplify_eq |].
    destruct (sftp_NewClient c) as [e | c'] eqn:Hc'; simplify_eq.
    by split_and!.
Qed.

(** [Dial] makes exactly one dial attempt, with the given configuration
    or, when that is nil, the default.  A failure leaves the pool as it
    was; a success stores the new pair under the host, over any pair
    already there, which is not closed, and touches no other host. *)
Theorem Dial_updates_one_host
    (rt rt' : RoundTripper) (host : string) (cfg : option ClientConfig)
    (r : option error) (t t' : Trace) :
  Dial rt host cfg t = (r, rt', t') →
  t' = t ++ dial_events host (effective_config rt cfg) t ∧
  dials t' = S (dials t) ∧
  config rt' = config rt ∧
  (∀ h, h ≠ host → conn rt' !! h = conn rt !! h) ∧
  match r with
  | Some _ => rt' = rt
  | None =>
      ∃ p, dial_outcome host (effective_config rt cfg) t = inr p ∧
           conn rt' !! host = Some p
  end.
Proof.
  intros Hd. rewrite Dial_run in Hd.
  destruct (dial_outcome host (effective_config rt cfg) t) as [e' | p];
    simplify_eq.
  - split_and!; try done. rewrite dials_app, dials_dial_events. lia.
  - split_and!; try done.
    + rewrite dials_app, dials_dial_events. lia.
    + intros h Hh. cbn [conn]. by rewrite lookup_insert_ne.
    + exists p. cbn [conn]. by rewrite lookup_insert_eq.
Qed.

(** A host dialed explicitly is never dialed again by [lazyDial]: the
    pair stored by a successful [Dial] is the one [lazyDial] returns, so
    the credentials given to [Dial] stay in use for that host. *)
Theorem Dial_then_lazyDial
    (rt rt' : RoundTripper) (host : string) (cfg : option ClientConfig)
    (t t' : Trace) :
  Dial rt host cfg t = (None, rt', t') →
  ∃ p, dial_outcome host (effective_config rt cfg) t = inr p ∧
       lazyDial rt' host t' = (Some p, None, rt', t').
Proof.
  intros Hd. rewrite Dial_run in Hd.
  destruct (dial_outcome host (effective_config rt cfg) t) as [e' | p];
    simplify_eq.
  exists p. split; [done |]. unfold lazyDial. cbn [conn].
  by rewrite lookup_insert_eq.
Qed.

(** Whatever [lazyDial] returns without error is a pair, and it is the
    pair the pool holds for the host afterwards. *)
Lemma lazyDial_resolved rt host t op rt' t' :
  lazyDial rt host t = (op, None, rt', t') →
  ∃ p, op = Some p ∧ conn rt' !! host = Some p.
Proof.
  intros Hl. destruct (conn rt !! host) as [p0 |] eqn:Hc.
  - unfold lazyDial in Hl. rewrite Hc in Hl. unfold ret in Hl. simplify_eq.
    by exists p0.
  - rewrite lazyDial_absent in Hl by done.
    destruct (dial_outcome host (config rt) t) as [e | p]; simplify_eq.
    exists p. cbn [conn]. by rewrite lookup_insert_eq.
Qed.

(** [lazyDial] keeps every pair of the pool and the default
    configuration. *)
Lemma lazyDial_keeps rt host t :
  config (lazyDial rt host t).1.2 = config rt ∧
  ∀ h p, conn rt !! h = Some p → conn (lazyDial rt host t).1.2 !! h = Some p.
Proof.
  destruct (conn rt !! host) as [p0 |] eqn:Hc.
  - unfold lazyDial. rewrite Hc. by split.
  - rewrite lazyDial_absent by done.
    destruct (dial_outcome host (config rt) t) as [e | p]; [by split |].
    split; [done |]. intros h p' Hh. cbn [fst snd conn].
    rewrite lookup_insert_ne; [done |]. intros <-. congruence.
Qed.

(** A loop that returns nil has removed every key it visited. *)
Lemma Close_range_ok (ks : list string) : ∀ rt t rt' t',
  Close_range ks rt t = (Ok tt, rt', t') → rt' = without ks rt.
Proof.
  induction ks as [| k ks IH]; intros rt t rt' t' Hc.
  - simpl in Hc. unfold ret in Hc. simplify_eq. by destruct rt'.
  - cbn [Close_range] in Hc.
    destruct (conn rt !! k) as [p |]; [| unfold ret in Hc; simplify_eq].
    revert Hc. run.
    destruct (sftp_Close (sftpc p)); [intros; simplify_eq |].
    destruct (ssh_Close (sshc p)); [intros; simplify_eq |].
    intros Hc. by apply IH in Hc.
Qed.

(** A [Close] that returns nil over an order that covers the pool leaves
    the pool empty, so that the next request to any host dials afresh,
    with the default configuration. *)
Theorem Close_then_lazyDial
    (order : list string) (rt rt' : RoundTripper) (host : string)
    (t t' : Trace) :
  (∀ k, is_Some (conn rt !! k) → k ∈ order) →
  Close order rt t = (Ok tt, rt', t') →
  conn rt' = ∅ ∧
  config rt' = config rt ∧
  (lazyDial rt' host t').2 = t' ++ dial_events host (config rt) t'.
Proof.
  intros Hcover Hc. apply Close_range_ok in Hc. subst rt'.
  assert (conn (without order rt) = ∅) as Hempty.
  { apply map_eq. intros k. cbn [without conn].
    rewrite lookup_foldl_delete, lookup_empty. case_decide as Hin; [done |].
    destruct (conn rt !! k) eqn:E; [| done].
    exfalso. apply Hin, Hcover. by rewrite E. }
  split_and!; [done | done |].
  rewrite lazyDial_absent by (by rewrite Hempty, lookup_empty). done.
Qed.

End PoolMore.

(** ** Headers of an assembled response *)

Section ResponsesMore.
Context `{GoLib}.

Definition server_identity : string := "github.com/mdlayher/sshttp".

(** The first value under a key, as [Header.Get] reads it. *)
Definition first_value (o : option (list string)) : string :=
  match o with
  | Some (v :: _) => v
  | _ => ""
  end.

(** The headers after the caller's headers were added to [Server]. *)
Definition with_server (headers : Header) (k : string) : option (list string) :=
  merged (Header_Set ∅ "Server" server_identity !! k) (headers !! k).

(** Every key of an assembled response, in terms of the caller's
    headers. *)
Lemma httpResponse_lookup code body (headers : Header) (k : string) :
  Header_ (httpResponse code body headers) !! k =
    if decide (k = "Connection" ∧ code ≠ StatusOK ∧
               first_value (with_server headers "Connection") = "")
    then Some ["close"]
    else if decide (k = "Content-Type" ∧
                    first_value (with_server headers "Content-Type") = "")
    then Some ["text/plain; charset=utf-8"]
    else if decide (k = "Date" ∧ first_value (with_server headers "Date") = "")
    then Some [http_TimeFormat time_Now]
    else with_server headers k.
Proof.
  unfold httpResponse. cbn [Header_].
  set (h1 := map_fold _ _ headers).
  assert (∀ k, h1 !! k = with_server headers k) as H1
    by (intros k'; apply copied_headers).
  assert (∀ (h : Header) k, Header_Get h k = first_value (h !! k)) as HG by done.
  set (h2 := if decide (Header_Get h1 "Date" = "") then _ else h1).
  assert (∀ k, h2 !! k =
            if decide (k = "Date" ∧ first_value (with_server headers "Date") = "")
            then Some [http_TimeFormat time_Now] else with_server headers k) as H2.
  { intros k'. unfold h2. rewrite HG, H1.
    destruct (decide (first_value (with_server headers "Date") = "")) as [Hd | Hd].
    - unfold Header_Set. destruct (decide (k' = "Date")) as [-> | Hk].
      + rewrite lookup_insert_eq. by rewrite decide_True.
      + rewrite lookup_insert_ne by done. rewrite H1.
        by rewrite decide_False by (by intros []).
    - rewrite H1. by rewrite decide_False by (by intros []). }
  set (h3 := if decide (Header_Get h2 "Content-Type" = "") then _ else h2).
  assert (∀ k, h3 !! k =
            if decide (k = "Content-Type" ∧
                       first_value (with_server headers "Content-Type") = "")
            then Some ["text/plain; charset=utf-8"] else h2 !! k) as H3.
  { intros k'. unfold h3. rewrite HG, H2.
    rewrite (decide_False (P := "Content-Type" = "Date" ∧ _)) by (by intros []).
    destruct (decide (first_value (with_server headers "Content-Type") = ""))
      as [Hd | Hd].
    - unfold Header_Set. destruct (decide (k' = "Content-Type")) as [-> | Hk].
      + rewrite lookup_insert_eq. by rewrite decide_True.
      + rewrite lookup_insert_ne by done.
        by rewrite decide_False by (by intros []).
    - by rewrite decide_False by (by intros []). }
  assert (Header_Get h3 "Connection" = first_value (with_server headers "Connection"))
    as HC.
  { rewrite HG, H3, H2.
    rewrite (decide_False (P := "Connection" = "Content-Type" ∧ _)) by (by intros []).
    by rewrite (decide_False (P := "Connection" = "Date" ∧ _)) by (by intros []). }
  rewrite HC.
  destruct (decide (code ≠ StatusOK ∧
                    first_value (with_server headers "Connection") = ""))
    as [[Hcode Hd] | Hd].
  - unfold Header_Set. destruct (decide (k = "Connection")) as [-> | Hk].
    + rewrite lookup_insert_eq. by rewrite decide_True.
    + rewrite lookup_insert_ne by done. rewrite H3, H2.
      by rewrite (decide_False (P := k = "Connection" ∧ _)) by (by intros []).
  - rewrite H3, H2.
    by rewrite (decide_False (P := k = "Connection" ∧ _))
      by (intros (? & ? & ?); by apply Hd).
Qed.

(** Every response identifies the server: the first [Server] value is
    the package's, even when the caller supplies a [Server] header of its
    own, whose values come after it. *)
Theorem httpResponse_Server code body (headers : Header) :
  Header_Get (Header_ (httpResponse code body headers)) "Server" = server_identity ∧
  Header_ (httpResponse code body headers) !! "Server" =
    Some (server_identity :: default [] (headers !! "Server")).
Proof.
  assert (Header_ (httpResponse code body headers) !! "Server" =
            Some (server_identity :: default [] (headers !! "Server"))) as Hs.
  { rewrite httpResponse_lookup.
    rewrite !decide_False by (by intros []).
    unfold with_server, Header_Set. rewrite lookup_insert_eq.
    by destruct (headers !! "Server") as [[| v vs] |]. }
  split; [| done]. unfold Header_Get. by rewrite Hs.
Qed.

Lemma httpResponse_other_key code body (headers : Header) (k : string) :
  k ≠ "Server" → k ≠ "Date" → k ≠ "Content-Type" → k ≠ "Connection" →
  Header_ (httpResponse code body headers) !! k = merged None (headers !! k).
Proof.
  intros Hs Hd Hc Hn. rewrite httpResponse_lookup.
  rewrite !decide_False by (by intros []).
  unfold with_server, Header_Set. rewrite lookup_insert_ne by done.
  by rewrite lookup_empty.
Qed.

(** A caller's header other than the four the package manages reaches
    the response with all its values, in order, and the response has no
    other header than those four and the caller's. *)
Theorem httpResponse_passes_headers code body (headers : Header) (k : string) :
  k ≠ "Server" → k ≠ "Date" → k ≠ "Content-Type" → k ≠ "Connection" →
  (∀ vs, headers !! k = Some vs → vs ≠ [] →
     Header_ (httpResponse code body headers) !! k = Some vs) ∧
  (headers !! k = None → Header_ (httpResponse code body headers) !! k = None).
Proof.
  intros Hs Hd Hc Hn. rewrite httpResponse_other_key by done. split.
  - intros vs -> Hvs. by destruct vs.
  - by intros ->.
Qed.

(** [Date], [Content-Type] and [Connection] given by the caller with a
    non-empty first value are kept; otherwise [Date] is the current time
    and [Content-Type] is plain text, and [Connection] is [close] on
    every status but 200, where it stays unset. *)
Theorem httpResponse_defaults code body (headers : Header) :
  let get k := Header_Get (Header_ (httpResponse code body headers)) k in
  get "Date" =
    (if decide (Header_Get headers "Date" = "")
     then http_TimeFormat time_Now else Header_Get headers "Date") ∧
  get "Content-Type" =
    (if decide (Header_Get headers "Content-Type" = "")
     then "text/plain; charset=utf-8" else Header_Get headers "Content-Type") ∧
  get "Connection" =
    (if decide (Header_Get headers "Connection" = "")
     then (if decide (code = StatusOK) then "" else "close")
     else Header_Get headers "Connection").
Proof.
  assert (∀ k, k ≠ "Server" →
            first_value (with_server headers k) = Header_Get headers k) as Hw.
  { intros k Hk. unfold with_server, Header_Set, Header_Get.
    rewrite lookup_insert_ne by done. rewrite lookup_empty.
    by destruct (headers !! k) as [[| v vs] |]. }
  cbv zeta. split_and!.
  - unfold Header_Get at 1. rewrite httpResponse_lookup, !Hw by done.
    rewrite (decide_False (P := "Date" = "Connection" ∧ _)) by (by intros []).
    rewrite (decide_False (P := "Date" = "Content-Type" ∧ _)) by (by intros []).
    destruct (decide (Header_Get headers "Date" = "")) as [Hd | Hd].
    + by rewrite decide_True.
    + rewrite decide_False by (by intros []). by apply (Hw "Date").
  - unfold Header_Get at 1. rewrite httpResponse_lookup, !Hw by done.
    rewrite (decide_False (P := "Content-Type" = "Connection" ∧ _)) by (by intros []).
    destruct (decide (Header_Get headers "Content-Type" = "")) as [Hd | Hd].
    + by rewrite decide_True.
    + rewrite decide_False by (by intros []).
      rewrite decide_False by (by intros []). by apply (Hw "Content-Type").
  - unfold Header_Get at 1. rewrite httpResponse_lookup, !Hw by done.
    destruct (decide (Header_Get headers "Connection" = "")) as [Hd | Hd].
    + destruct (decide (code = StatusOK)) as [Hc | Hc].
      * rewrite decide_False by (by intros (? & ? & ?)).
        rewrite !decide_False by (by intros []).
        change (first_value (with_server headers "Connection") = "").
        by rewrite Hw.
      * by rewrite decide_True.
    + rewrite decide_False by (by intros (? & ? & ?)).
      rewrite !decide_False by (by intros []). by apply (Hw "Connection").
Qed.

End ResponsesMore.

(** ** More on the Get algorithm *)

(** A read fault before the end of the requested range stops the copy
    there: the bytes before the fault are delivered and the error of the
    read is the error of the copy. *)
Lemma copyN_fault (f : RemoteFile) (n : Z) (k : nat) (e : error) :
  rf_fault f = Some (k, e) → rf_pos f = 0%nat →
  Z.of_nat k < n → Z.of_nat k < len (rf_data f) →
  copyN f n = (Z.of_nat k, Some e, take k (rf_data f), set_pos f k).
Proof.
  intros Hf Hp Hn Hk. unfold copyN, read_limited. rewrite Hf, Hp. simpl.
  rewrite drop_0. unfold len in *.
  rewrite decide_True by (rewrite length_take; lia).
  rewrite Nat.sub_0_r, take_take. replace (k `min` Z.to_nat n)%nat with k by lia.
  rewrite length_take. rewrite decide_False by lia.
  rewrite decide_False by (intros [_ ?]; done).
  do 3 f_equal. lia.
Qed.

(** The bytes a copy delivers are a run of the file starting at the
    cursor, never more than asked for; the copy reports no error exactly
    when it delivered the number of bytes asked for. *)
Lemma copyN_segment (f : RemoteFile) (n : Z) :
  ∃ j, (copyN f n).1.2 = take j (drop (rf_pos f) (rf_data f)) ∧
       (j ≤ Z.to_nat n)%nat ∧
       (0 ≤ n → (copyN f n).1.1.2 = None ↔ len (copyN f n).1.2 = n).
Proof.
  unfold copyN, read_limited.
  set (d := drop (rf_pos f) (rf_data f)).
  assert (∀ m, len (take m d) ≤ Z.of_nat m) as Hlen
    by (intros m; unfold len; rewrite length_take; lia).
  destruct (rf_fault f) as [[k e] |].
  - case_decide as Hk.
    + exists ((k - rf_pos f) `min` Z.to_nat n)%nat.
      rewrite take_take.
      repeat case_decide; cbn [fst snd]; (split; [done |]); (split; [lia |]);
        intros Hn; split; try done; intros; simplify_eq; try lia;
        destruct_and?; done.
    + exists (Z.to_nat n).
      repeat case_decide; cbn [fst snd]; (split; [done |]); (split; [lia |]);
        intros Hn; split; try done; intros; simplify_eq; try lia.
      exfalso. pose proof (Hlen (Z.to_nat n)). naive_solver lia.
  - exists (Z.to_nat n).
    repeat case_decide; cbn [fst snd]; (split; [done |]); (split; [lia |]);
      intros Hn; split; try done; intros; simplify_eq; try lia.
    exfalso. pose proof (Hlen (Z.to_nat n)). naive_solver lia.
Qed.

(** A copy changes nothing of a file but its cursor. *)
Lemma copyN_moves_cursor (f : RemoteFile) (n : Z) :
  ∃ j, (copyN f n).2 = set_pos f j.
Proof.
  unfold copyN, read_limited.
  destruct (rf_fault f) as [[k e] |]; repeat case_decide; by eexists.
Qed.

(** A read fault in the middle of the transfer: the reader receives the
    bytes before the fault and then the error of the read; the file is
    closed all the same, and an error of that close is dropped. *)
Theorem stream_read_fault (f : RemoteFile) (size : Z) (k : nat) (e : error)
    (t : Trace) :
  rf_fault f = Some (k, e) → rf_pos f = 0%nat →
  Z.of_nat k < size → Z.of_nat k < len (rf_data f) →
  stream f size t =
    (Ok {| pipe_data := take k (rf_data f); pipe_err := Some e |},
     t ++ [EvFileCopyN size; EvPipeWrite (take k (rf_data f)); EvFileClose;
           EvPipeClose (Some e)]).
Proof.
  intros Hf Hp Hs Hk.
  by rewrite (stream_run _ _ _ _ _ _ _ (copyN_fault f size k e Hf Hp Hs Hk)).
Qed.

(** Without read fault, a copy delivers the next [n] bytes of the file,
    or all that is left when that is less, and then ends with [io.EOF]. *)
Lemma copyN_no_fault (f : RemoteFile) (n : Z) :
  rf_fault f = None → 0 ≤ n →
  let rest := drop (rf_pos f) (rf_data f) in
  (copyN f n).1.2 = take (Z.to_nat n) rest ∧
  (len rest < n → (copyN f n).1.2 = rest ∧ (copyN f n).1.1.2 = Some EOF).
Proof.
  intros Hf Hn rest. unfold copyN, read_limited. rewrite Hf. fold rest.
  assert (len rest < n → take (Z.to_nat n) rest = rest) as Hall
    by (intros ?; apply take_ge; unfold len in *; lia).
  repeat case_decide; cbn [fst snd]; (split; [done |]); intros Hlt;
    rewrite ?Hall in * by done; try done; try lia.
  exfalso. naive_solver lia.
Qed.

(** The producer never panics and never sends more than [size] bytes;
    what it sends is a run of the file starting at the cursor; and it
    passes nil to [CloseWithError] only when exactly [size] bytes were
    sent and the file closed without error.  The reader cannot rely on
    the converse: when no read fails and fewer than [size] bytes were
    sent, the file had no more, the producer closed the pipe with
    [io.EOF], and the reader gets [io.EOF] after that shorter body just
    as it does after a complete one. *)
Theorem stream_sends_at_most_size (f : RemoteFile) (size : Z) (t : Trace) :
  0 ≤ size →
  ∃ pipe j,
    (stream f size t).1 = Ok pipe ∧
    pipe_data pipe = take j (drop (rf_pos f) (rf_data f)) ∧
    len (pipe_data pipe) ≤ size ∧
    (pipe_err pipe = None → len (pipe_data pipe) = size ∧ rf_Close f = None) ∧
    (rf_fault f = None → len (pipe_data pipe) < size →
       pipe_data pipe = drop (rf_pos f) (rf_data f) ∧
       pipe_err pipe = Some EOF ∧ read_error pipe = EOF).
Proof.
  intros Hs. destruct (copyN_segment f size) as (j & Hbs & Hj & Herr).
  pose proof (copyN_no_fault f size) as Hnf. cbv zeta in Hnf.
  destruct (copyN f size) as [[[n e] bs] f'] eqn:Hcp. cbn [fst snd] in *.
  rewrite (stream_run _ _ _ _ _ _ _ Hcp). cbn [fst].
  eexists _, j. split; [reflexivity |]. unfold read_error.
  cbn [pipe_data pipe_err].
  split_and!; [done | | |].
  - subst bs. unfold len. rewrite length_take. lia.
  - intros He. destruct e; [done |]. split; [by apply Herr | done].
  - intros Hf Hlt. destruct (Hnf Hf Hs) as [Htake Hshort].
    assert (len (drop (rf_pos f) (rf_data f)) < size) as Hrest.
    { rewrite Htake in Hlt. unfold len in *. rewrite length_take in Hlt. lia. }
    destruct (Hshort Hrest) as [-> ->]. done.
Qed.

Section GetMore.
Context `{GoLib}.

(** What discovery returns when it succeeds: the headers with one
    [Content-Type] added, and the file with its contents, its answers and
    its cursor as before, or the cursor at byte 0 after a probe. *)
Lemma discover_ok h stat f t h' f' t' :
  discover h stat f t = (Ok (h', f'), t') →
  (∃ c, h' = Header_Set h "Content-Type" c) ∧
  rf_data f' = rf_data f ∧ rf_Close f' = rf_Close f ∧
  rf_fault f' = rf_fault f ∧
  (f' = f ∨ rf_pos f' = 0%nat).
Proof.
  unfold discover. case_decide as Hc.
  - unfold ret. intros ?; simplify_eq. split_and!; eauto.
  - run. destruct (copyN_moves_cursor f 512) as [j Hj].
    destruct (copyN f 512) as [[[n e] bs] f1]. cbn [snd] in *. subst f1.
    destruct e; [intros; simplify_eq |].
    destruct (slice bs 0 n); [| intros; simplify_eq].
    cbn [rf_Seek set_pos].
    destruct (rf_Seek f); intros; simplify_eq.
    split_and!; eauto.
Qed.

Definition is_close (e : Event) : bool :=
  match e with
  | EvFileClose | EvSftpClose _ | EvSshClose _ | EvPipeClose _ => true
  | _ => false
  end.

(** The calls [get] logs after the open: a stat, a probe, a rewind, and
    nothing else. *)
Lemma get_events (p : clientPair) (r : Request) (t : Trace) :
  ∃ evs,
    (get p r t).2 = t ++ open_event p r :: evs ∧
    dials (open_event p r :: evs) = 0%nat ∧
    forallb (λ e, negb (is_close e)) evs = true.
Proof.
  unfold get. run.
  destruct (sftp_Open (sftpc p) (URL_Path r)) as [e | f].
  { exists []. by destruct e; repeat case_decide. }
  destruct (rf_Stat f) as [e | stat].
  { exists [EvFileStat]. by rewrite <- app_assoc. }
  unfold discover. case_decide.
  { exists [EvFileStat]. by rewrite <- app_assoc. }
  run. destruct (copyN f 512) as [[[n e] bs] f1].
  destruct e.
  { exists [EvFileStat; EvFileCopyN 512]. by rewrite <- !app_assoc. }
  destruct (slice bs 0 n).
  2: { exists [EvFileStat; EvFileCopyN 512]. by rewrite <- !app_assoc. }
  exists [EvFileStat; EvFileCopyN 512; EvFileSeek 0].
  destruct (rf_Seek f1); by rewrite <- !app_assoc.
Qed.

(** Before it returns, [get] dials nothing and closes nothing: neither a
    session nor, on any of its error returns, the file it has opened. *)
Theorem get_dials_and_closes_nothing (p : clientPair) (r : Request) (t : Trace) :
  dials (get p r t).2 = dials t ∧
  ∃ evs,
    (get p r t).2 = t ++ open_event p r :: evs ∧
    Forall (λ e, is_close e = false) evs.
Proof.
  destruct (get_events p r t) as (evs & Ht & Hd & Hc).
  split.
  - rewrite Ht, dials_app, Hd. lia.
  - exists evs. split; [done |].
    apply Forall_forall. intros e He.
    rewrite forallb_forall in Hc. apply negb_true_iff, Hc.
    by apply list_elem_of_In.
Qed.

(** The only responses [get] returns are the 404 without body and the
    200 with a body. *)
Lemma get_status (p : clientPair) (r : Request) (t : Trace) res t' :
  get p r t = (Ok res, t') →
  (StatusCode res = 404 ∧ Body res = None) ∨
  (StatusCode res = 200 ∧ is_Some (Body res)).
Proof.
  unfold get. run.
  destruct (sftp_Open (sftpc p) (URL_Path r)) as [e | f].
  { destruct e; repeat case_decide; intros; simplify_eq. by left. }
  destruct (rf_Stat f) as [e | stat]; [intros; simplify_eq |].
  destruct (discover _ stat f _) as [[[h f'] | e |] t1]; intros; simplify_eq.
  right. by split.
Qed.

(** The status codes of the package: a response returned by [RoundTrip]
    is a 200 with a body, or a 404 or a 405 without one; the 405 is
    returned for every method but [GET] and for no [GET]. *)
Theorem RoundTrip_status_codes
    (rt rt' : RoundTripper) (r : Request) (res : Response) (t t' : Trace) :
  RoundTrip rt r t = (Ok res, rt', t') →
  (StatusCode res = 200 ∧ is_Some (Body res) ∧ Method r = "GET") ∨
  (StatusCode res = 404 ∧ Body res = None ∧ Method r = "GET") ∨
  (StatusCode res = 405 ∧ Body res = None ∧ Method r ≠ "GET").
Proof.
  unfold RoundTrip, bind.
  destruct (lazyDial rt (URL_Host r) t) as [[[op e] rt1] t1].
  destruct e; [intros; simplify_eq |].
  case_decide as Hm.
  - destruct op as [p |]; [| intros; simplify_eq].
    destruct (get p r t1) as [res' t2] eqn:Hg. unfold ret. intros; simplify_eq.
    apply get_status in Hg as [[? ?] | [? ?]]; [right; left | left]; done.
  - unfold ret. intros; simplify_eq. right; right. done.
Qed.

(** A request never removes or replaces a session of the pool, and the
    session of its own host is in the pool once it returned a response;
    a second request to that host, of any method, then dials nothing and
    leaves the pool as it is. *)
Theorem RoundTrip_reuses_session
    (rt rt1 : RoundTripper) (r1 r2 : Request) (res : Response) (t t1 : Trace) :
  URL_Host r2 = URL_Host r1 →
  RoundTrip rt r1 t = (Ok res, rt1, t1) →
  (∀ h p, conn rt !! h = Some p → conn rt1 !! h = Some p) ∧
  is_Some (conn rt1 !! URL_Host r1) ∧
  (RoundTrip rt1 r2 t1).1.2 = rt1 ∧
  dials (RoundTrip rt1 r2 t1).2 = dials t1.
Proof.
  intros Hh Hr. unfold RoundTrip, bind in Hr.
  pose proof (lazyDial_keeps rt (URL_Host r1) t) as [_ Hkeep].
  destruct (lazyDial rt (URL_Host r1) t) as [[[op e] rt0] t0] eqn:Hl.
  destruct e; [simplify_eq |].
  apply lazyDial_resolved in Hl as (p & -> & Hp). cbn [fst snd] in Hkeep.
  assert (rt0 = rt1) as ->.
  { case_decide; [destruct (get p r1 t0) |]; unfold ret in Hr; by simplify_eq. }
  split_and!; [done | by rewrite Hp | |].
  - unfold RoundTrip, bind, lazyDial. rewrite Hh, Hp. unfold ret.
    destruct (decide (Method r2 = "GET")); [destruct (get p r2 t1) |]; done.
  - unfold RoundTrip, bind, lazyDial. rewrite Hh, Hp. unfold ret.
    destruct (decide (Method r2 = "GET")); [| done].
    destruct (get_events p r2 t1) as (evs & Ht & Hd & _).
    destruct (get p r2 t1) as [res2 t2]. cbn [snd] in *.
    rewrite Ht, dials_app, Hd. lia.
Qed.

(** The headers of every 200: [Content-Length] is the size reported by
    the stat, in decimal, [Last-Modified] its modification time, no
    [Connection] header is set, and the body copies as many bytes as the
    stat reported from a file with the contents of the opened one. *)
Theorem get_ok_headers
    (p : clientPair) (r : Request) (f : RemoteFile) (stat : FileInfo)
    (res : Response) (t t' : Trace) :
  sftp_Open (sftpc p) (URL_Path r) = inr f →
  rf_Stat f = inr stat →
  get p r t = (Ok res, t') →
  StatusCode res = 200 ∧
  Header_ res !! "Content-Length" = Some [pretty (Size stat)] ∧
  Header_ res !! "Last-Modified" = Some [http_TimeFormat (ModTime stat)] ∧
  Header_ res !! "Connection" = None ∧
  ∃ f', Body res = Some {| pr_file := f'; pr_size := Size stat |} ∧
        rf_data f' = rf_data f ∧ (f' = f ∨ rf_pos f' = 0%nat).
Proof.
  intros Ho Hs Hg. rewrite (get_opened _ _ _ _ _ Ho Hs) in Hg.
  unfold bind in Hg.
  destruct (discover _ stat f _) as [[[h f'] | e |] t1] eqn:Hd;
    unfold ret in Hg; simplify_eq.
  apply discover_ok in Hd as ((c & ->) & Hdata & _ & _ & Hpos).
  split_and!; [done | | | | by exists f'].
  - rewrite httpResponse_other_key by done. unfold file_headers, Header_Set.
    rewrite lookup_insert_ne by done. rewrite lookup_insert_ne by done.
    by rewrite lookup_insert_eq.
  - rewrite httpResponse_other_key by done. unfold file_headers, Header_Set.
    rewrite lookup_insert_ne by done. by rewrite lookup_insert_eq.
  - rewrite httpResponse_lookup.
    rewrite decide_False by (by intros (_ & ? & _)).
    rewrite !decide_False by (by intros []). done.
Qed.

End GetMore.

Section GetFailures.
Context `{GoLib}.

(** A failure of the 512-byte probe or of the rewind after it ends [get]
    with that error and without a response; the file stays open. *)
Theorem get_probe_failure
    (p : clientPair) (r : Request) (f : RemoteFile) (stat : FileInfo)
    (e : error) (t : Trace) :
  sftp_Open (sftpc p) (URL_Path r) = inr f →
  rf_Stat f = inr stat →
  mime_TypeByExtension (filepath_Ext (Name stat)) = "" →
  rf_pos f = 0%nat →
  (∀ k, rf_fault f = Some (k, e) →
     Z.of_nat k < 512 → Z.of_nat k < len (rf_data f) →
     get p r t = (Err e, t ++ [open_event p r; EvFileStat; EvFileCopyN 512])) ∧
  (rf_fault f = None → 512 ≤ len (rf_data f) → rf_Seek f = Some e →
     get p r t =
       (Err e, t ++ [open_event p r; EvFileStat; EvFileCopyN 512; EvFileSeek 0])).
Proof.
  intros Ho Hs Hc Hp. split.
  - intros k Hf Hk Hlen.
    rewrite (get_opened _ _ _ _ _ Ho Hs). unfold bind, discover.
    rewrite Hc. rewrite decide_False by (by intros []).
    run. rewrite (copyN_fault f 512 k e) by done.
    by rewrite <- app_assoc.
  - intros Hf Hlen Hk.
    rewrite (get_opened _ _ _ _ _ Ho Hs). unfold bind, discover.
    rewrite Hc. rewrite decide_False by (by intros []).
    run. rewrite copyN_prefix by (try done; lia).
    rewrite slice_in_range by (unfold len in *; rewrite ?length_take; lia).
    cbn [rf_Seek set_pos]. rewrite Hk.
    by rewrite <- !app_assoc.
Qed.

(** A failing stat ends [get] with that error before any header is built
    or any byte is read. *)
Lemma get_stat_failure p r f e t :
  sftp_Open (sftpc p) (URL_Path r) = inr f → rf_Stat f = inl e →
  get p r t = (Err e, t ++ [open_event p r; EvFileStat]).
Proof.
  intros Ho Hs. unfold get. run. rewrite Ho, Hs. by rewrite <- app_assoc.
Qed.

End GetFailures.

(** ** More on the filesystem adapter *)

(** The part of [*url.URL] the package reads. *)
Record URL : Type := mkURL {
  Scheme : string;
  Host : string;
  Path : string
}.

(** [url.Parse] *)
Class UrlLib : Type := {
  url_Parse : string → error + URL
}.

Section AdapterMore.
Context `{GoLib} `{UrlLib}.

(** [NewFileSystem] *)
Definition NewFileSystem (host : string) (cfg : option ClientConfig)
    : M (result FileSystem) :=
  match url_Parse host with
  | inl e => ret (Err e)
  | inr u =>
      if decide (Scheme u ≠ Protocol) then
        ret (Err (OtherError ("invalid URL scheme: " +:+ Scheme u)))
      else
        let* r := dialSSHSFTP (Host u) cfg in
        match r with
        | inl e => ret (Err e)
        | inr p => ret (Ok {| pair := p; path := Path u |})
        end
  end.

(** [NewFileSystem] dials only a URI that parses and whose scheme is
    [sftp]: otherwise it returns the error without any network call.  It
    then dials the host of the URI once, with the configuration as given,
    and the adapter it returns is rooted at the path of the URI. *)
Theorem NewFileSystem_contract (host : string) (cfg : option ClientConfig)
    (t : Trace) :
  (∀ e, url_Parse host = inl e → NewFileSystem host cfg t = (Err e, t)) ∧
  (∀ u, url_Parse host = inr u → Scheme u ≠ "sftp" →
     NewFileSystem host cfg t =
       (Err (OtherError ("invalid URL scheme: " +:+ Scheme u)), t)) ∧
  (∀ u, url_Parse host = inr u → Scheme u = "sftp" →
     NewFileSystem host cfg t =
       (match dial_outcome (Host u) cfg t with
        | inl e => Err e
        | inr p => Ok {| pair := p; path := Path u |}
        end,
        t ++ dial_events (Host u) cfg t)) ∧
  (∀ fs t', NewFileSystem host cfg t = (Ok fs, t') →
     ∃ u, url_Parse host = inr u ∧ Scheme u = "sftp" ∧ path fs = Path u ∧
          dial_outcome (Host u) cfg t = inr (pair fs) ∧
          dials t' = S (dials t)).
Proof.
  unfold NewFileSystem, Protocol. split_and!.
  - by intros e ->.
  - intros u -> Hs. by rewrite decide_True.
  - intros u -> Hs. rewrite decide_False by (by intros []).
    unfold bind. rewrite dialSSHSFTP_run.
    by destruct (dial_outcome (Host u) cfg t).
  - intros fs t'. destruct (url_Parse host) as [e | u]; [intros; simplify_eq |].
    case_decide as Hs; [intros; simplify_eq |].
    unfold bind. rewrite dialSSHSFTP_run.
    destruct (dial_outcome (Host u) cfg t) as [e | p] eqn:Hd;
      unfold ret; intros; simplify_eq.
    exists u. split_and!; try done.
    rewrite dials_app, dials_dial_events. lia.
Qed.

(** Every handle [Open] returns is fresh: its paging offset is 0 and it
    has not signalled completion; it wraps the file the server opened for
    the joined path, and its name is that path with a slash appended for
    a directory and the root path otherwise.  [Open] returns a handle only
    when both the open and the stat succeeded. *)
Theorem Open_returns_fresh_handle
    (fs : FileSystem) (name : string) (h : File) (t t' : Trace) :
  Open fs name t = (Ok h, t') →
  ∃ f stat,
    sftp_Open (sftpc (pair fs)) (filepath_Join (path fs) name) = inr f ∧
    rf_Stat f = inr stat ∧
    f_File h = f ∧ f_sftpc h = sftpc (pair fs) ∧
    f_offset h = 0 ∧ f_eofNext h = false ∧
    f_name h = (if IsDir stat then filepath_Join (path fs) name +:+ "/"
                else path fs) ∧
    t' = t ++ [EvSftpOpen (sftp_id (sftpc (pair fs)))
                 (filepath_Join (path fs) name); EvFileStat].
Proof.
  unfold Open. run.
  destruct (sftp_Open _ _) as [e | f]; [intros; simplify_eq |].
  destruct (rf_Stat f) as [e | stat] eqn:Hs; intros; simplify_eq.
  exists f, stat. rewrite <- app_assoc. by destruct (IsDir stat).
Qed.

(** Opening a directory and reading it: when [filepath.Dir] of the
    joined path with a slash appended is the joined path, as it is for the
    clean paths [filepath.Join] returns, the handle pages through the
    sorted listing of the directory that was opened. *)
Theorem Open_directory_lists_itself
    (fs : FileSystem) (name : string) (f : RemoteFile) (stat : FileInfo)
    (fis0 : list FileInfo) (t : Trace) :
  let fpath := filepath_Join (path fs) name in
  sftp_Open (sftpc (pair fs)) fpath = inr f →
  rf_Stat f = inr stat → IsDir stat = true →
  filepath_Dir (fpath +:+ "/") = fpath →
  sftp_ReadDir (sftpc (pair fs)) fpath = inr fis0 →
  is_int (len fis0) →
  ∃ h t1,
    Open fs name t = (Ok h, t1) ∧
    (∀ count t2, count ≤ 0 →
       Readdir h count t2 =
         (Ok (sort_byBaseName fis0), set_eofNext h true,
          t2 ++ [EvSftpReadDir (sftp_id (sftpc (pair fs))) fpath])) ∧
    (∀ count t2, 0 < count →
       ∃ pages h' t3,
         Readdir_pages (S (length fis0)) h count t2 = (Some pages, h', t3) ∧
         concat pages = sort_byBaseName fis0).
Proof.
  intros fpath Ho Hs Hd Hdir Hl Hn. subst fpath.
  eexists _, _. split; [by apply (Open_directory fs name f stat) |].
  set (h := set_name (opened fs f) (filepath_Join (path fs) name +:+ "/")).
  assert (lists fis0 h) as Hlists.
  { split; [done |]. unfold h. cbn [f_sftpc f_name set_name opened].
    by rewrite Hdir. }
  split.
  - intros count t2 Hc. rewrite (Readdir_all fis0) by auto.
    unfold readdir_event, h. cbn [f_sftpc f_name set_name opened].
    by rewrite Hdir.
  - intros count t2 Hc.
    assert (Z.to_nat (len fis0 - f_offset h) < S (length fis0))%nat as Hfuel
      by (unfold len; simpl; lia).
    destruct (Readdir_pages_from fis0 count (S (length fis0)) h t2
                Hlists Hn Hc ltac:(done) (or_introl eq_refl) Hfuel)
      as (pages & h' & t3 & Hr & Hcat & _).
    exists pages, h', t3. split; [done |]. by rewrite Hcat.
Qed.

End AdapterMore.

(** * The further contracts on the concrete environment *)

Module ExampleMore.
Import Example.

(** A handle whose directory the server does not know. *)
Definition orphan_handle : File :=
  {| f_File := directory "x"; f_sftpc := sftp_of ssh0;
     f_name := "/srv/x"; f_offset := 0; f_eofNext := false |}.

(** [root_handle] once it has signalled completion, and with an offset
    beyond the four entries of its listing. *)
Definition done_handle : File := set_eofNext root_handle true.
Definition stale_handle : File := set_offset root_handle 5.

(** A three-byte file whose third byte cannot be read and whose close
    fails. *)
Definition faulty (name : string) : RemoteFile :=
  {| rf_data := hi; rf_pos := 0; rf_Stat := inr (fi name 3 false);
     rf_fault := Some (2%nat, OtherError "read failed");
     rf_Seek := None; rf_Close := Some (OtherError "close failed") |}.

(** A session that serves that file under every path. *)
Definition pair_faulty : clientPair :=
  {| sshc := ssh0;
     sftpc := {| sftp_id := 1; sftp_Open := λ _, inr (faulty "blob");
                 sftp_ReadDir := remote_ReadDir; sftp_Close := None |} |}.

Definition cfg2 : ClientConfig := {| User := "user2"; Auth := ["password2"] |}.

(** [url.Parse] on the two URIs used below. *)
Definition urls : UrlLib := {|
  url_Parse s :=
    if decide (s = "sftp://192.168.1.1:22/home/user")
    then inr {| Scheme := "sftp"; Host := "192.168.1.1:22"; Path := "/home/user" |}
    else if decide (s = "http://example.com/")
    then inr {| Scheme := "http"; Host := "example.com"; Path := "/" |}
    else inl (OtherError "parse error")
|}.

Definition custom_headers : Header := {[ "X-Custom" := ["a"; "b"] ]}.

End ExampleMore.

Section ConcreteMore.
#[local] Existing Instance Example.lib.
#[local] Existing Instance ExampleMore.urls.
Import Example ExampleMore.

Lemma sort_byBaseName_canonical_witness :
  StronglySorted name_lt (sort_byBaseName home_user) ∧
  sort_byBaseName home_user = sort_byBaseName (reverse home_user).
Proof.
  assert (home_user ≡ₚ reverse home_user) as Hp
    by (symmetry; apply reverse_Permutation).
  destruct (sort_byBaseName_canonical home_user (reverse home_user)
              home_user_NoDup Hp) as (_ & Hs & Heq).
  by split.
Defined.

Lemma Readdir_seq_after_completion_witness :
  Readdir_seq [0; 3; -1] done_handle [] =
    ([Err EOF; Err EOF; Err EOF], done_handle, []).
Proof.
  apply (Readdir_seq_after_completion [0; 3; -1] done_handle [] eq_refl).
Defined.

Lemma Readdir_listing_error_witness :
  Readdir orphan_handle 2 [] =
    (Err (StatusError 2), orphan_handle, [EvSftpReadDir 1 "/"]).
Proof.
  assert (sftp_ReadDir (f_sftpc orphan_handle)
            (filepath_Dir (f_name orphan_handle)) = inl (StatusError 2)) as Hl
    by (vm_compute; reflexivity).
  destruct (Readdir_listing_error orphan_handle 2 (StatusError 2) [] eq_refl Hl)
    as [Hr _].
  exact Hr.
Defined.

Lemma root_handle_in_listing : in_listing home_user root_handle.
Proof. split; [vm_compute; reflexivity | unfold len; simpl; lia]. Qed.

Lemma Readdir_seq_safe_witness :
  Forall (well_behaved home_user)
    (Readdir_seq [1; 0; 5; -3; 2] root_handle []).1.1.
Proof.
  destruct (Readdir_seq_safe home_user [1; 0; 5; -3; 2] root_handle []
              home_user_int root_handle_in_listing) as [Hr _].
  exact Hr.
Defined.

Lemma Readdir_past_the_end_witness :
  Readdir stale_handle 1 [] =
    (Panic, set_eofNext stale_handle true, [EvSftpReadDir 1 "/home/user"]).
Proof.
  assert (sftp_ReadDir (f_sftpc stale_handle)
            (filepath_Dir (f_name stale_handle)) = inr home_user) as Hl
    by (vm_compute; reflexivity).
  apply (Readdir_past_the_end home_user stale_handle 1 [] eq_refl Hl).
  - unfold is_int. simpl. lia.
  - exact home_user_int.
  - unfold len. simpl. lia.
  - unfold len. simpl. lia.
Defined.

Lemma dialSSHSFTP_failures_witness :
  dialSSHSFTP "down:22" (Some cfg) [] =
    (inl (OtherError "connection refused"), [EvSshDial "down:22" (Some cfg)]).
Proof.
  destruct (dialSSHSFTP_failures "down:22" (Some cfg) []) as (Hdown & _ & _).
  apply Hdown. vm_compute. reflexivity.
Defined.

(** Dialing [h1:22] again in the pool of two: the new pair replaces the
    one that was there, which is not closed. *)
Definition rt_two_redialed : RoundTripper :=
  {| config := Some cfg; conn := <["h1:22" := pair0]> (conn rt_two) |}.

Lemma Dial_updates_one_host_witness :
  Dial rt_two "h1:22" None [] =
    (None, rt_two_redialed, [EvSshDial "h1:22" (Some cfg); EvSftpNewClient 0]) ∧
  conn rt_two_redialed !! "h2:22" = conn rt_two !! "h2:22" ∧
  ∃ p, conn rt_two_redialed !! "h1:22" = Some p.
Proof.
  assert (Dial rt_two "h1:22" None [] =
            (None, rt_two_redialed,
             [EvSshDial "h1:22" (Some cfg); EvSftpNewClient 0])) as Hd
    by (vm_compute; reflexivity).
  destruct (Dial_updates_one_host _ _ _ _ _ _ _ Hd)
    as (_ & _ & _ & Hother & p & _ & Hp).
  split_and!; [exact Hd | by apply Hother | by exists p].
Defined.

Definition rt_h1_cfg2 : RoundTripper :=
  {| config := Some cfg; conn := <["h1:22" := pair0]> ∅ |}.

Lemma Dial_then_lazyDial_witness :
  Dial rt_empty "h1:22" (Some cfg2) [] =
    (None, rt_h1_cfg2, [EvSshDial "h1:22" (Some cfg2); EvSftpNewClient 0]) ∧
  ∃ p, lazyDial rt_h1_cfg2 "h1:22"
         [EvSshDial "h1:22" (Some cfg2); EvSftpNewClient 0] =
       (Some p, None, rt_h1_cfg2,
        [EvSshDial "h1:22" (Some cfg2); EvSftpNewClient 0]).
Proof.
  assert (Dial rt_empty "h1:22" (Some cfg2) [] =
            (None, rt_h1_cfg2,
             [EvSshDial "h1:22" (Some cfg2); EvSftpNewClient 0])) as Hd
    by (vm_compute; reflexivity).
  destruct (Dial_then_lazyDial _ _ _ _ _ _ Hd) as (p & _ & Hl).
  split; [exact Hd | by exists p].
Defined.

Definition rt_closed : RoundTripper :=
  {| config := Some cfg; conn := delete "h1:22" (<["h1:22" := pair0]> ∅) |}.

Lemma rt_h1_keys k : is_Some (conn rt_h1 !! k) → k ∈ ["h1:22"].
Proof.
  unfold rt_h1. cbn [conn]. intros [p Hp].
  apply lookup_insert_Some in Hp as [[<- _] | [_ Hp]]; [by left |].
  by rewrite lookup_empty in Hp.
Qed.

Lemma Close_then_lazyDial_witness :
  Close ["h1:22"] rt_h1 [] = (Ok tt, rt_closed, [EvSftpClose 1; EvSshClose 0]) ∧
  conn rt_closed = ∅ ∧
  (lazyDial rt_closed "h1:22" [EvSftpClose 1; EvSshClose 0]).2 =
    [EvSftpClose 1; EvSshClose 0] ++
    dial_events "h1:22" (Some cfg) [EvSftpClose 1; EvSshClose 0].
Proof.
  assert (Close ["h1:22"] rt_h1 [] =
            (Ok tt, rt_closed, [EvSftpClose 1; EvSshClose 0])) as Hc
    by (vm_compute; reflexivity).
  destruct (Close_then_lazyDial ["h1:22"] rt_h1 rt_closed "h1:22" [] _
              rt_h1_keys Hc) as (Hempty & _ & Hl).
  by split_and!.
Defined.

Lemma Close_all_closed_witness :
  Close ["h1:22"] rt_h1 [] =
    (Ok tt, {| config := Some cfg; conn := ∅ |}, [EvSftpClose 1; EvSshClose 0]).
Proof.
  apply (Close_all_closed rt_h1 [("h1:22", pair0)] []).
  - apply (bool_decide_unpack _). vm_compute. exact I.
  - intros k p. rewrite list_elem_of_singleton. unfold rt_h1. cbn [conn].
    rewrite lookup_insert_Some, lookup_empty.
    split; [intros [= -> ->]; by left | intros [[<- <-] | [_ ?]]; done].
  - intros k p Hin. apply list_elem_of_singleton in Hin. by simplify_eq.
Defined.

Lemma httpResponse_passes_headers_witness :
  Header_ (httpResponse StatusNotFound None custom_headers) !! "X-Custom" =
    Some ["a"; "b"] ∧
  Header_ (httpResponse StatusNotFound None custom_headers) !! "X-Other" = None.
Proof.
  destruct (httpResponse_passes_headers StatusNotFound None custom_headers
              "X-Custom" ltac:(done) ltac:(done) ltac:(done) ltac:(done))
    as [Hpass _].
  destruct (httpResponse_passes_headers StatusNotFound None custom_headers
              "X-Other" ltac:(done) ltac:(done) ltac:(done) ltac:(done))
    as [_ Hnone].
  split.
  - apply Hpass; [vm_compute; reflexivity | done].
  - apply Hnone. vm_compute. reflexivity.
Defined.

Lemma stream_read_fault_witness :
  stream (faulty "blob") 3 [] =
    (Ok {| pipe_data := [Byte.x68; Byte.x69];
           pipe_err := Some (OtherError "read failed") |},
     [EvFileCopyN 3; EvPipeWrite [Byte.x68; Byte.x69]; EvFileClose;
      EvPipeClose (Some (OtherError "read failed"))]).
Proof.
  apply (stream_read_fault (faulty "blob") 3 2 (OtherError "read failed") []);
    try reflexivity.
Defined.

Lemma stream_sends_at_most_size_witness :
  ∃ pipe, (stream (regular "hello.txt" hi) 5 []).1 = Ok pipe ∧
          len (pipe_data pipe) ≤ 5 ∧
          pipe_data pipe = hi ∧
          pipe_err pipe = Some EOF ∧ read_error pipe = EOF.
Proof.
  destruct (stream_sends_at_most_size (regular "hello.txt" hi) 5 [])
    as (pipe & j & Hs & Hrun & Hlen & _ & Hshort); [lia |].
  assert (len (pipe_data pipe) < 5) as Hlt.
  { rewrite Hrun. unfold len. rewrite length_take. simpl. lia. }
  destruct (Hshort eq_refl Hlt) as (Hd & He & Hr).
  exists pipe. by split_and!.
Defined.

Lemma RoundTrip_status_codes_witness :
  RoundTrip rt_h1 (GET "h1:22" "/nowhere") [] =
    (Ok (httpResponse StatusNotFound None ∅), rt_h1, [EvSftpOpen 1 "/nowhere"]) ∧
  StatusCode (httpResponse StatusNotFound None ∅) = 404 ∧
  Body (httpResponse StatusNotFound None ∅) = None.
Proof.
  assert (RoundTrip rt_h1 (GET "h1:22" "/nowhere") [] =
            (Ok (httpResponse StatusNotFound None ∅), rt_h1,
             [EvSftpOpen 1 "/nowhere"])) as Hr
    by (vm_compute; reflexivity).
  destruct (RoundTrip_status_codes _ _ _ _ _ _ Hr)
    as [(Hs & _) | [(Hs & Hb & _) | (Hs & _)]]; [done | by split_and! | done].
Defined.

Lemma RoundTrip_reuses_session_witness :
  RoundTrip rt_empty (POST "h1:22" "/") [] =
    (Ok (httpResponse StatusMethodNotAllowed None ∅), rt_h1,
     [EvSshDial "h1:22" (Some cfg); EvSftpNewClient 0]) ∧
  is_Some (conn rt_h1 !! "h1:22") ∧
  dials (RoundTrip rt_h1 (GET "h1:22" "/home/user/hello.txt")
           [EvSshDial "h1:22" (Some cfg); EvSftpNewClient 0]).2 = 1%nat.
Proof.
  assert (RoundTrip rt_empty (POST "h1:22" "/") [] =
            (Ok (httpResponse StatusMethodNotAllowed None ∅), rt_h1,
             [EvSshDial "h1:22" (Some cfg); EvSftpNewClient 0])) as Hr
    by (vm_compute; reflexivity).
  destruct (RoundTrip_reuses_session rt_empty rt_h1 (POST "h1:22" "/")
              (GET "h1:22" "/home/user/hello.txt") _ [] _ eq_refl Hr)
    as (_ & Hin & _ & Hd).
  split_and!; [exact Hr | exact Hin | exact Hd].
Defined.

Lemma get_ok_headers_witness :
  ∃ res t',
    get pair0 (GET "h1:22" "/home/user/hello.txt") [] = (Ok res, t') ∧
    Header_ res !! "Content-Length" = Some ["3"] ∧
    Header_ res !! "Connection" = None.
Proof.
  destruct (get pair0 (GET "h1:22" "/home/user/hello.txt") [])
    as [[res | e |] t'] eqn:Hg; try (vm_compute in Hg; discriminate Hg).
  destruct (get_ok_headers pair0 (GET "h1:22" "/home/user/hello.txt")
              (regular "hello.txt" hi) (fi "hello.txt" 3 false) res [] t'
              eq_refl eq_refl Hg) as (_ & Hlen & _ & Hconn & _).
  exists res, t'. by split_and!.
Defined.

Lemma get_probe_failure_witness :
  get pair_faulty (GET "h1:22" "/blob") [] =
    (Err (OtherError "read failed"),
     [EvSftpOpen 1 "/blob"; EvFileStat; EvFileCopyN 512]).
Proof.
  destruct (get_probe_failure pair_faulty (GET "h1:22" "/blob") (faulty "blob")
              (fi "blob" 3 false) (OtherError "read failed") [] eq_refl eq_refl)
    as [Hfault _]; [vm_compute; reflexivity | reflexivity |].
  apply (Hfault 2%nat); [reflexivity | lia | unfold len; simpl; lia].
Defined.

Lemma get_sniff_long_file_witness :
  ∃ res,
    get pair0 (GET "h1:22" "/home/user/b") [] =
      (Ok res, [EvSftpOpen 1 "/home/user/b"; EvFileStat; EvFileCopyN 512;
                EvFileSeek 0]) ∧
    StatusCode res = 200 ∧
    Header_Get (Header_ res) "Content-Type" = "text/plain; charset=utf-8".
Proof.
  assert (sftp_Open (sftpc pair0) (URL_Path (GET "h1:22" "/home/user/b")) =
            inr (regular "b" (replicate 600 Byte.x78))) as Ho
    by (vm_compute; reflexivity).
  assert (rf_Stat (regular "b" (replicate 600 Byte.x78)) =
            inr (fi "b" 600 false)) as Hs by (vm_compute; reflexivity).
  assert (mime_TypeByExtension (filepath_Ext (Name (fi "b" 600 false))) = "")
    as Hm by (vm_compute; reflexivity).
  assert (512 ≤ len (rf_data (regular "b" (replicate 600 Byte.x78)))) as Hlen
    by (cbn [rf_data regular]; unfold len; rewrite length_replicate; lia).
  assert (http_DetectContentType
            (take (Z.to_nat 512) (rf_data (regular "b" (replicate 600 Byte.x78))))
          ≠ "") as Hd by done.
  destruct (get_sniff_long_file pair0 (GET "h1:22" "/home/user/b")
              (regular "b" (replicate 600 Byte.x78)) (fi "b" 600 false) []
              Ho Hs Hm eq_refl eq_refl eq_refl Hlen Hd)
    as (res & Hg & Hst & Hc & _).
  exists res. by split_and!.
Defined.

Lemma NewFileSystem_contract_witness :
  NewFileSystem "http://example.com/" (Some cfg) [] =
    (Err (OtherError "invalid URL scheme: http"), []) ∧
  NewFileSystem "sftp://192.168.1.1:22/home/user" (Some cfg) [] =
    (Ok {| pair := pair0; path := "/home/user" |},
     [EvSshDial "192.168.1.1:22" (Some cfg); EvSftpNewClient 0]).
Proof.
  destruct (NewFileSystem_contract "http://example.com/" (Some cfg) [])
    as (_ & Hscheme & _).
  destruct (NewFileSystem_contract "sftp://192.168.1.1:22/home/user" (Some cfg) [])
    as (_ & _ & Hdial & _).
  split.
  - apply (Hscheme {| Scheme := "http"; Host := "example.com"; Path := "/" |});
      [vm_compute; reflexivity | done].
  - rewrite (Hdial {| Scheme := "sftp"; Host := "192.168.1.1:22";
                      Path := "/home/user" |});
      [vm_compute; reflexivity | vm_compute; reflexivity | reflexivity].
Defined.

Lemma Open_returns_fresh_handle_witness :
  Open fs "/" [] = (Ok root_handle, [EvSftpOpen 1 "/home/user"; EvFileStat]) ∧
  f_offset root_handle = 0 ∧ f_eofNext root_handle = false ∧
  f_sftpc root_handle = sftpc (pair fs).
Proof.
  assert (Open fs "/" [] =
            (Ok root_handle, [EvSftpOpen 1 "/home/user"; EvFileStat])) as Ho
    by (vm_compute; reflexivity).
  destruct (Open_returns_fresh_handle fs "/" root_handle [] _ Ho)
    as (f & stat & _ & _ & _ & Hc & Hoff & Heof & _).
  by split_and!.
Defined.

Lemma Open_directory_lists_itself_witness :
  ∃ h t1,
    Open fs "/" [] = (Ok h, t1) ∧
    Readdir h 0 [] =
      (Ok (sort_byBaseName home_user), set_eofNext h true,
       [EvSftpReadDir 1 "/home/user"]).
Proof.
  pose proof (Open_directory_lists_itself fs "/" (directory "user")
                (fi "user" 0 true) home_user []) as Hthm.
  cbv zeta in Hthm.
  destruct Hthm as (h & t1 & Ho & Hall & _);
    try (vm_compute; reflexivity); [exact home_user_int |].
  exists h, t1. split; [exact Ho |]. apply (Hall 0 []). lia.
Defined.

End ConcreteMore.
